(** * The request transport of the storage client (storage-transport.ts)

    A shallow embedding of [StorageTransport]: header assembly, interceptor
    installation, project resolution, URL construction, dispatch to the
    authenticated-request collaborator and the callback/promise outcome.

    Conventions of the model.
    - A JavaScript string is represented by its sequence of bytes (UTF-8
      for URL text); all the literals of the source are ASCII.
    - [option] is used for a property that may be absent ([undefined]).
    - The platform classes the source relies on ([Headers], [URL],
      [URLSearchParams], the interceptor [Set] of the request engine) are
      modelled after their standards (Fetch, URL), on byte strings.
    - One call of [makeRequest] is run to completion: awaited promises are
      modelled by the value or the exception they settle with.  *)

From Stdlib Require Import Ascii String NArith ZArith QArith.
From stdpp Require Import base option list strings gmap.

Local Open Scope string_scope.
Local Open Scope list_scope.

(* Concatenation of byte strings computes under [simpl] and [cbn]. *)
#[local] Arguments String.append !_ _ : simpl nomatch.

(** ** Bytes and byte strings *)

Module Bytes.

Definition code (c : ascii) : N := N_of_ascii c.

Definition in_range (lo hi : N) (c : ascii) : bool :=
  (lo <=? code c)%N && (code c <=? hi)%N.

Definition is_digit (c : ascii) : bool := in_range 48 57 c.
Definition is_upper (c : ascii) : bool := in_range 65 90 c.
Definition is_lower (c : ascii) : bool := in_range 97 122 c.
Definition is_alnum (c : ascii) : bool := is_digit c || is_upper c || is_lower c.

(** ASCII lower-casing of one byte and of a string (header names are
    compared byte-case-insensitively). *)
Definition lower_ascii (c : ascii) : ascii :=
  if is_upper c then ascii_of_N (code c + 32) else c.

Fixpoint lower (s : string) : string :=
  match s with
  | EmptyString => EmptyString
  | String c r => String (lower_ascii c) (lower r)
  end.

Fixpoint all_chars (p : ascii -> bool) (s : string) : bool :=
  match s with
  | EmptyString => true
  | String c r => p c && all_chars p r
  end.

(** Upper-case hexadecimal digit of a number below 16. *)
Definition hex_digit (n : N) : ascii :=
  if (n <? 10)%N then ascii_of_N (48 + n) else ascii_of_N (55 + n).

Definition is_hex (c : ascii) : bool :=
  is_digit c || in_range 65 70 c || in_range 97 102 c.

Definition hex_value (c : ascii) : N :=
  if is_digit c then (code c - 48)%N
  else if in_range 65 70 c then (code c - 55)%N
  else (code c - 87)%N.

(** [%XX] for one byte. *)
Definition pct_byte (c : ascii) : string :=
  String "%" (String (hex_digit (code c / 16)) (String (hex_digit (code c mod 16)) EmptyString)).

Definition unpct (a b : ascii) : ascii := ascii_of_N (hex_value a * 16 + hex_value b).

(** JavaScript truthiness of an optional string: [undefined] and the
    empty string are falsy. *)
Definition truthy (o : option string) : bool :=
  match o with
  | Some s => negb (String.eqb s "")
  | None => false
  end.

Fixpoint join (sep : string) (l : list string) : string :=
  match l with
  | [] => ""
  | [x] => x
  | x :: r => x +:+ sep +:+ join sep r
  end.

End Bytes.

(** ** Values, exceptions and completions *)

(** A response of the request engine: its decoded body and the status. *)
Record GaxiosResponse := { resp_data : string; resp_status : Z }.

(** A thrown value: an error object; [err_response] is its [response]
    property, absent on errors that are not HTTP errors. *)
Record GaxiosError := { err_message : string; err_response : option GaxiosResponse }.

Definition TypeError (msg : string) : GaxiosError :=
  {| err_message := msg; err_response := None |}.

(** The completion of a computation that may throw. *)
Inductive Completion (A : Type) : Type :=
  | Ok (a : A)
  | Throw (e : GaxiosError).
Arguments Ok {A} a.
Arguments Throw {A} e.

Definition is_Ok {A} (c : Completion A) : bool :=
  match c with
  | Ok _ => true
  | Throw _ => false
  end.

Definition cbind {A B} (m : Completion A) (k : A -> Completion B) : Completion B :=
  match m with
  | Ok a => k a
  | Throw e => Throw e
  end.

Notation "'try!' x <- m ; k" := (cbind m (fun x => k))
  (at level 60, x name, m at next level, right associativity).

(** ** application/x-www-form-urlencoded (URL standard), as used by
    [URLSearchParams] *)

Module FormUrlencoded.
Import Bytes.

Definition unreserved (c : ascii) : bool :=
  is_alnum c || Ascii.eqb c "*" || Ascii.eqb c "-" || Ascii.eqb c "." || Ascii.eqb c "_".

Definition encode_byte (c : ascii) : string :=
  if Ascii.eqb c " " then "+"
  else if unreserved c then String c ""
  else pct_byte c.

Fixpoint encode (s : string) : string :=
  match s with
  | EmptyString => ""
  | String c r => encode_byte c +:+ encode r
  end.

(** The bytes the serializer writes for a name or a value, and for a
    whole query. *)
Definition plain (c : ascii) : bool :=
  unreserved c || Ascii.eqb c "+" || Ascii.eqb c "%".

Definition query_byte (c : ascii) : bool :=
  plain c || Ascii.eqb c "=" || Ascii.eqb c "&".

Definition no_amp (s : string) : bool :=
  all_chars (fun c => negb (Ascii.eqb c "&")) s.

Definition serialize_pair (kv : string * string) : string :=
  encode kv.1 +:+ "=" +:+ encode kv.2.

(** [URLSearchParams.prototype.toString]. *)
Definition serialize (l : list (string * string)) : string :=
  join "&" (map serialize_pair l).

Fixpoint plus_to_space (s : string) : string :=
  match s with
  | EmptyString => ""
  | String c r => String (if Ascii.eqb c "+" then " "%char else c) (plus_to_space r)
  end.

Fixpoint pct_decode (s : string) : string :=
  match s with
  | EmptyString => ""
  | String c r =>
      if Ascii.eqb c "%" then
        match r with
        | String a (String b r') =>
            if is_hex a && is_hex b then String (unpct a b) (pct_decode r')
            else String c (pct_decode r)
        | _ => String c (pct_decode r)
        end
      else String c (pct_decode r)
  end.

Definition decode (s : string) : string := pct_decode (plus_to_space s).

(** The pieces of [s] between the occurrences of [sep]. *)
Fixpoint split_on (sep : ascii) (s : string) : list string :=
  match s with
  | EmptyString => [""]
  | String c r =>
      if Ascii.eqb c sep then "" :: split_on sep r
      else match split_on sep r with
           | x :: l => String c x :: l
           | [] => [String c ""]
           end
  end.

(** [s] cut at its first [sep]: what is before, and what is after if
    [sep] occurs. *)
Fixpoint split_first (sep : ascii) (s : string) : string * option string :=
  match s with
  | EmptyString => ("", None)
  | String c r =>
      if Ascii.eqb c sep then ("", Some r)
      else let p := split_first sep r in (String c p.1, p.2)
  end.

Definition parse_pair (piece : string) : string * string :=
  let p := split_first "=" piece in
  (decode p.1, decode (default "" p.2)).

(** The urlencoded parser: what [new URLSearchParams(query)] holds. *)
Definition parse (q : string) : list (string * string) :=
  map parse_pair (List.filter (fun p => negb (String.eqb p "")) (split_on "&" q)).

(** First value recorded for a name ([URLSearchParams.prototype.get], and
    property lookup in an object given by its entries). *)
Fixpoint assoc {V} (k : string) (l : list (string * V)) : option V :=
  match l with
  | [] => None
  | (k', v) :: r => if String.eqb k' k then Some v else assoc k r
  end.

End FormUrlencoded.

(** ** The [Headers] class (Fetch standard) *)

Module Fetch.
Import Bytes.

(** HTTP whitespace bytes: tab, LF, CR, space. *)
Definition is_http_ws (c : ascii) : bool :=
  (code c =? 9)%N || (code c =? 10)%N || (code c =? 13)%N || (code c =? 32)%N.

Fixpoint lstrip (s : string) : string :=
  match s with
  | EmptyString => ""
  | String c r => if is_http_ws c then lstrip r else s
  end.

Fixpoint rstrip (s : string) : string :=
  match s with
  | EmptyString => ""
  | String c r =>
      match rstrip r with
      | EmptyString => if is_http_ws c then "" else String c ""
      | r' => String c r'
      end
  end.

(** A string of HTTP whitespace only. *)
Definition blank (s : string) : bool := all_chars is_http_ws s.

(** Normalisation of a header value: HTTP whitespace removed at both ends. *)
Definition normalize (v : string) : string := rstrip (lstrip v).

Definition is_tchar (c : ascii) : bool :=
  is_alnum c || existsb (Ascii.eqb c) (list_ascii_of_string "!#$%&'*+-.^_`|~").

(** A header name is a non-empty token. *)
Definition valid_name (n : string) : bool :=
  negb (String.eqb n "") && all_chars is_tchar n.

(** A (normalised) header value holds no NUL, LF or CR. *)
Definition valid_value (v : string) : bool :=
  all_chars (fun c => negb ((code c =? 0)%N || (code c =? 10)%N || (code c =? 13)%N)) v.

(** The header list: name-value pairs, names kept in lower case. *)
Definition Headers := list (string * string).

(** What a request descriptor may carry as [headers]: a plain object,
    given by its entries in enumeration order, or a [Headers] object. *)
Inductive HeadersInit :=
  | HRecord (entries : list (string * string))
  | HObject (h : Headers).

Definition matches (n : string) (kv : string * string) : bool :=
  String.eqb kv.1 (lower n).

(** [Headers.prototype.get]: the values recorded for the name, combined
    with comma-space; [None] is JavaScript's [null]. *)
Definition hget (n : string) (h : Headers) : option string :=
  match List.filter (matches n) h with
  | [] => None
  | l => Some (join ", " (map snd l))
  end.

Definition check (n v : string) : Completion string :=
  if valid_name n then
    if valid_value (normalize v) then Ok (normalize v)
    else Throw (TypeError "Invalid header value")
  else Throw (TypeError "Invalid header name").

(** [Headers.prototype.append]. *)
Definition happend (h : Headers) (n v : string) : Completion Headers :=
  try! v' <- check n v;
  Ok (h ++ [(lower n, v')]).

(** The first header named [n] takes the value [v]; the others named [n]
    are removed. *)
Fixpoint replace_first (n v : string) (h : Headers) : Headers :=
  match h with
  | [] => []
  | kv :: r =>
      if matches n kv then (kv.1, v) :: List.filter (fun kv' => negb (matches n kv')) r
      else kv :: replace_first n v r
  end.

(** [Headers.prototype.set]. *)
Definition hset (h : Headers) (n v : string) : Completion Headers :=
  try! v' <- check n v;
  Ok (if existsb (matches n) h then replace_first n v' h else h ++ [(lower n, v')]).

Fixpoint fill (h : Headers) (entries : list (string * string)) : Completion Headers :=
  match entries with
  | [] => Ok h
  | (n, v) :: r => try! h' <- happend h n v; fill h' r
  end.

(** [new Headers(init)]. *)
Definition new_Headers (init : HeadersInit) : Completion Headers :=
  match init with
  | HRecord entries => fill [] entries
  | HObject h => Ok h
  end.

(** The entries of a plain object whose name is [n], whatever the case. *)
Definition named (n : string) (entries : list (string * string)) : list (string * string) :=
  List.filter (fun kv => String.eqb (lower kv.1) (lower n)) entries.

(** What [get(n)] returns on the headers made of [init]: for a plain
    object, the normalised values of the entries named [n], combined. *)
Definition init_get (n : string) (init : HeadersInit) : option string :=
  match init with
  | HRecord entries =>
      match named n entries with
      | [] => None
      | l => Some (join ", " (map (fun kv => normalize kv.2) l))
      end
  | HObject h => hget n h
  end.

End Fetch.

(** ** The [URL] class (URL standard) *)

Module Url.
Import Bytes.

(** A parsed URL: [url_prefix] is its serialisation up to the query
    (scheme, authority and path); the query and the fragment are kept
    without their leading [?] and [#]. *)
Record URL := {
  url_special : bool;
  url_prefix : string;
  url_query : option string;
  url_fragment : option string }.

(** The [href] of a URL, also its [toString()]. *)
Definition href (u : URL) : string :=
  url_prefix u
  +:+ match url_query u with Some q => "?" +:+ q | None => "" end
  +:+ match url_fragment u with Some f => "#" +:+ f | None => "" end.

(** The query percent-encode set (with ['] for special schemes). *)
Definition in_query_set (special : bool) (c : ascii) : bool :=
  (code c <=? 32)%N || (code c =? 34)%N || (code c =? 35)%N
  || (code c =? 60)%N || (code c =? 62)%N || (126 <? code c)%N
  || (special && (code c =? 39)%N).

Fixpoint query_encode (special : bool) (s : string) : string :=
  match s with
  | EmptyString => ""
  | String c r =>
      (if in_query_set special c then pct_byte c else String c "")
      +:+ query_encode special r
  end.

Fixpoint strip_tab_newline (s : string) : string :=
  match s with
  | EmptyString => ""
  | String c r =>
      if (code c =? 9)%N || (code c =? 10)%N || (code c =? 13)%N
      then strip_tab_newline r else String c (strip_tab_newline r)
  end.

Definition strip_question_mark (s : string) : string :=
  match s with
  | String c r => if Ascii.eqb c "?" then r else s
  | EmptyString => ""
  end.

(** The setter of [url.search]: the empty string removes the query;
    otherwise one leading [?] is dropped, tabs and newlines are removed
    and the rest is percent-encoded in the query state.  (The trimming
    of an opaque path that the removal of the query can cause is not
    modelled: the URLs of the transport are hierarchical.) *)
Definition set_search (u : URL) (v : string) : URL :=
  {| url_special := url_special u;
     url_prefix := url_prefix u;
     url_query :=
       if String.eqb v "" then None
       else Some (query_encode (url_special u) (strip_tab_newline (strip_question_mark v)));
     url_fragment := url_fragment u |}.

(** [url.searchParams.get(name)]. *)
Definition searchParams_get (name : string) (u : URL) : option string :=
  match url_query u with
  | Some q => FormUrlencoded.assoc name (FormUrlencoded.parse q)
  | None => None
  end.

(** What a request descriptor may carry as [url]. *)
Inductive UrlLike :=
  | UString (s : string)
  | UObject (u : URL).

Definition toString (u : UrlLike) : string :=
  match u with
  | UString s => s
  | UObject u => href u
  end.

End Url.

(** ** Data model of storage-transport.ts *)

Import Bytes.

(** The value of a query parameter: [string | number | boolean |
    undefined]; a number is given by the string [String(n)] yields. *)
Inductive QueryValue :=
  | QString (s : string)
  | QNumber (repr : string)
  | QBoolean (b : bool)
  | QUndefined.

(** [StorageQueryParameters]: the entries of the object, in enumeration
    order. *)
Definition StorageQueryParameters := list (string * QueryValue).

(** An interceptor object, known by its reference.  The request engine
    keeps its request interceptors in a [Set] ([clear], [add]). *)
Definition GaxiosInterceptor := nat.

(** [RetryOptions] of ./storage, by the fields the transport reads. *)
Module RetryOptions.
Record t := {
  maxRetries : option Q;
  maxRetryDelay : option Q;
  retryDelayMultiplier : option Q;
  retryableErrorFn : option (GaxiosError -> bool);
  totalTimeout : option Q }.
End RetryOptions.

(** The [retryConfig] of the request engine. *)
Module RetryConfig.
Record t := {
  retry : option Q;
  noResponseRetries : option Q;
  maxRetryDelay : option Q;
  retryDelayMultiplier : option Q;
  shouldRetry : option (GaxiosError -> bool);
  totalTimeout : option Q }.
End RetryConfig.

(** [StorageRequestOptions extends GaxiosOptions]; the object handed to
    [authClient.request] has the same shape.  A property is given by its
    value, [None] when the value is [undefined], be the property absent or
    not: the transport reads values only.  [retryConfig] is the one
    property the object literal of [makeRequest] writes before it spreads
    the descriptor, where an own property whose value is [undefined]
    differs from an absent one; for it the outer [None] is the absent
    property and [Some None] the property whose value is [undefined]. *)
Module Req.
Record t := {
  (* GaxiosOptions *)
  method : option string;
  url : option Url.UrlLike;
  body : option string;
  headers : option Fetch.HeadersInit;
  timeout : option Q;
  retryConfig : option (option RetryConfig.t);
  retry : option bool;
  (* StorageRequestOptions *)
  GCCL_GCS_CMD_KEY : option string;
  interceptors : option (list GaxiosInterceptor);
  autoPaginate : option bool;
  autoPaginateVal : option bool;
  maxRetries : option Q;
  objectMode : option bool;
  projectId : option string;
  queryParameters : option StorageQueryParameters;
  shouldReturnStream : option bool }.

(** The object [{}]. *)
Definition empty : t :=
  {| method := None; url := None; body := None; headers := None;
     timeout := None; retryConfig := None; retry := None;
     GCCL_GCS_CMD_KEY := None; interceptors := None; autoPaginate := None;
     autoPaginateVal := None; maxRetries := None; objectMode := None;
     projectId := None; queryParameters := None; shouldReturnStream := None |}.

(** A property written after another of the same name replaces it;
    [None] is the property that is not written. *)
Definition over {A} (later earlier : option A) : option A :=
  match later with
  | Some v => Some v
  | None => earlier
  end.

(** [{...base, ...src}]: the properties of [src] written over [base].
    Where [base] has a property, the spread of [src] replaces it by the
    own property of [src], whatever its value; that is [retryConfig]. *)
Definition spread (src base : t) : t :=
  {| method := over (method src) (method base);
     url := over (url src) (url base);
     body := over (body src) (body base);
     headers := over (headers src) (headers base);
     timeout := over (timeout src) (timeout base);
     retryConfig := over (retryConfig src) (retryConfig base);
     retry := over (retry src) (retry base);
     GCCL_GCS_CMD_KEY := over (GCCL_GCS_CMD_KEY src) (GCCL_GCS_CMD_KEY base);
     interceptors := over (interceptors src) (interceptors base);
     autoPaginate := over (autoPaginate src) (autoPaginate base);
     autoPaginateVal := over (autoPaginateVal src) (autoPaginateVal base);
     maxRetries := over (maxRetries src) (maxRetries base);
     objectMode := over (objectMode src) (objectMode base);
     projectId := over (projectId src) (projectId base);
     queryParameters := over (queryParameters src) (queryParameters base);
     shouldReturnStream := over (shouldReturnStream src) (shouldReturnStream base) |}.

(** The property definitions [retryConfig: v], [headers: v], [url: v]
    and [timeout: v] of an object literal ([timeout: undefined] leaves the
    property undefined). *)
Definition with_retryConfig (v : option RetryConfig.t) (o : t) : t :=
  {| method := method o; url := url o; body := body o; headers := headers o;
     timeout := timeout o; retryConfig := Some v; retry := retry o;
     GCCL_GCS_CMD_KEY := GCCL_GCS_CMD_KEY o; interceptors := interceptors o;
     autoPaginate := autoPaginate o; autoPaginateVal := autoPaginateVal o;
     maxRetries := maxRetries o; objectMode := objectMode o;
     projectId := projectId o; queryParameters := queryParameters o;
     shouldReturnStream := shouldReturnStream o |}.

Definition with_headers (v : Fetch.Headers) (o : t) : t :=
  {| method := method o; url := url o; body := body o;
     headers := Some (Fetch.HObject v);
     timeout := timeout o; retryConfig := retryConfig o; retry := retry o;
     GCCL_GCS_CMD_KEY := GCCL_GCS_CMD_KEY o; interceptors := interceptors o;
     autoPaginate := autoPaginate o; autoPaginateVal := autoPaginateVal o;
     maxRetries := maxRetries o; objectMode := objectMode o;
     projectId := projectId o; queryParameters := queryParameters o;
     shouldReturnStream := shouldReturnStream o |}.

Definition with_url (v : Url.URL) (o : t) : t :=
  {| method := method o; url := Some (Url.UObject v); body := body o;
     headers := headers o;
     timeout := timeout o; retryConfig := retryConfig o; retry := retry o;
     GCCL_GCS_CMD_KEY := GCCL_GCS_CMD_KEY o; interceptors := interceptors o;
     autoPaginate := autoPaginate o; autoPaginateVal := autoPaginateVal o;
     maxRetries := maxRetries o; objectMode := objectMode o;
     projectId := projectId o; queryParameters := queryParameters o;
     shouldReturnStream := shouldReturnStream o |}.

Definition with_timeout (v : option Q) (o : t) : t :=
  {| method := method o; url := url o; body := body o; headers := headers o;
     timeout := v; retryConfig := retryConfig o; retry := retry o;
     GCCL_GCS_CMD_KEY := GCCL_GCS_CMD_KEY o; interceptors := interceptors o;
     autoPaginate := autoPaginate o; autoPaginateVal := autoPaginateVal o;
     maxRetries := maxRetries o; objectMode := objectMode o;
     projectId := projectId o; queryParameters := queryParameters o;
     shouldReturnStream := shouldReturnStream o |}.
End Req.

(** The auth collaborator ([GoogleAuth]), by the two operations the
    transport consumes.  Each is given by how its promise settles. *)
Record GoogleAuth := {
  getProjectId : Completion string;
  request : Req.t -> Completion GaxiosResponse }.

(** The [authClient] option of the constructor: a [GoogleAuth], used as
    it is, or an [AuthClient], given here by the [GoogleAuth] that
    [new GoogleAuth] builds around it. *)
Inductive AuthClientOption :=
  | IsGoogleAuth (a : GoogleAuth)
  | IsAuthClient (wrapped : GoogleAuth).

Module TransportParameters.
Record t := {
  apiEndpoint : string;
  authClient : option AuthClientOption;
  baseUrl : string;
  customEndpoint : option bool;
  email : option string;
  retryOptions : RetryOptions.t;
  scopes : list string;
  timeout : option Q;
  token : option string;
  useAuthWithCustomEndpoint : option bool;
  userAgent : option string;
  gaxiosInstance : option nat;
  projectId : option string }.
End TransportParameters.

(** The fields of a [StorageTransport] instance; [gaxiosInstance] is the
    reference of the request engine. *)
Record StorageTransport := {
  authClient : GoogleAuth;
  providedUserAgent : option string;
  retryOptions : RetryOptions.t;
  baseUrl : string;
  timeout : option Q;
  projectId : option string;
  useAuthWithCustomEndpoint : option bool;
  gaxiosInstance : nat }.

(** An argument of a callback invocation: omitted, [null], or a value. *)
Inductive Arg (A : Type) : Type :=
  | Undefined
  | Null
  | Value (a : A).
Arguments Undefined {A}.
Arguments Null {A}.
Arguments Value {A} a.

Definition of_option {A} (o : option A) : Arg A :=
  match o with
  | Some a => Value a
  | None => Undefined
  end.

(** One invocation [callback(err, data, fullResponse)]. *)
Record CallbackArgs := {
  cb_err : Arg GaxiosError;
  cb_data : Arg string;
  cb_fullResponse : Arg GaxiosResponse }.

(** [StorageTransportCallback]: what the caller's function does when it
    is invoked: it returns ([None]) or throws. *)
Definition StorageTransportCallback := CallbackArgs -> option GaxiosError.

(** What can be observed of a call, in order. *)
Inductive Event :=
  | EvGetProjectId
  | EvRequest (config : Req.t) (installed : list GaxiosInterceptor)
  | EvCallback (args : CallbackArgs).

(** Module scope and what is shared between transports: the variable
    [let projectId], the request engines by reference (each with the
    [Set] of its request interceptors, in insertion order) and the
    events so far. *)
Record World := {
  module_projectId : option string;
  engines : gmap nat (list GaxiosInterceptor);
  trace : list Event }.

(** What the source imports and the model takes as given: the strings
    the helpers [getUserAgentString], [getRuntimeTrackingString] and
    [getModuleFormat] of ./util return, the URL parser of the platform
    ([None] where [new URL] throws) and the [GoogleAuth] that
    [new GoogleAuth] builds when the options supply no auth client. *)
Record Env := {
  util_getUserAgentString : string;
  util_getRuntimeTrackingString : string;
  util_getModuleFormat : string;
  URL_parse : string -> option Url.URL;
  new_GoogleAuth : GoogleAuth }.

(** ** Effects: the instance, the module scope, and exceptions *)

(** The state a call runs in: the instance it is called on ([this]) and
    the shared world. *)
Record Machine := { this : StorageTransport; world : World }.

(** The elementary changes of state. *)
Definition add_event (ev : Event) (s : Machine) : Machine :=
  {| this := this s;
     world := {| module_projectId := module_projectId (world s);
                 engines := engines (world s);
                 trace := trace (world s) ++ [ev] |} |}.

Definition put_module_projectId (v : string) (s : Machine) : Machine :=
  {| this := this s;
     world := {| module_projectId := Some v;
                 engines := engines (world s);
                 trace := trace (world s) |} |}.

Definition set_projectId (v : string) (self : StorageTransport) : StorageTransport :=
  {| authClient := authClient self;
     providedUserAgent := providedUserAgent self;
     retryOptions := retryOptions self;
     baseUrl := baseUrl self;
     timeout := timeout self;
     projectId := Some v;
     useAuthWithCustomEndpoint := useAuthWithCustomEndpoint self;
     gaxiosInstance := gaxiosInstance self |}.

Definition put_this_projectId (v : string) (s : Machine) : Machine :=
  {| this := set_projectId v (this s); world := world s |}.

(** The request interceptors installed on an engine. *)
Definition installed (w : World) (g : nat) : list GaxiosInterceptor :=
  default [] (engines w !! g).

Definition put_installed (l : list GaxiosInterceptor) (s : Machine) : Machine :=
  {| this := this s;
     world := {| module_projectId := module_projectId (world s);
                 engines := <[gaxiosInstance (this s) := l]> (engines (world s));
                 trace := trace (world s) |} |}.

Definition M (A : Type) : Type := Machine -> Completion A * Machine.

Definition ret {A} (a : A) : M A := fun s => (Ok a, s).

Definition throw {A} (e : GaxiosError) : M A := fun s => (Throw e, s).

Definition bind {A B} (m : M A) (k : A -> M B) : M B :=
  fun s =>
    match m s with
    | (Ok a, s') => k a s'
    | (Throw e, s') => (Throw e, s')
    end.

Notation "'do' x <- m ; k" := (bind m (fun x => k))
  (at level 60, x name, m at next level, right associativity).

(** A pure computation that may throw. *)
Definition lift {A} (c : Completion A) : M A := fun s => (c, s).

Definition modify (f : Machine -> Machine) : M unit := fun s => (Ok tt, f s).

(** [try { m } catch (e) { h e }], and [p.catch(h)] on the promise that
    [m] settles. *)
Definition try_catch {A} (m : M A) (h : GaxiosError -> M A) : M A :=
  fun s =>
    match m s with
    | (Throw e, s') => h e s'
    | r => r
    end.

(** [p.then(f)] on a promise given by its settlement. *)
Definition then_ {A B} (p : Completion A) (f : A -> M B) : M B :=
  match p with
  | Ok a => f a
  | Throw e => throw e
  end.

Definition get_this : M StorageTransport := fun s => (Ok (this s), s).
Definition get_world : M World := fun s => (Ok (world s), s).

Definition log (ev : Event) : M unit := modify (add_event ev).

(** [Set.prototype.add] on a set kept in insertion order. *)
Definition Set_add (x : GaxiosInterceptor) (l : list GaxiosInterceptor) : list GaxiosInterceptor :=
  if bool_decide (x ∈ l) then l else l ++ [x].

(** [this.gaxiosInstance.interceptors.request.clear()] and [.add(inter)]. *)
Definition interceptors_request_clear : M unit := modify (put_installed []).

Definition interceptors_request_add (inter : GaxiosInterceptor) : M unit :=
  do self <- get_this;
  do w <- get_world;
  modify (put_installed (Set_add inter (installed w (gaxiosInstance self)))).

Fixpoint for_of {A} (l : list A) (body : A -> M unit) : M unit :=
  match l with
  | [] => ret tt
  | x :: r => do _ <- body x; for_of r body
  end.

(** [await this.authClient.getProjectId()]. *)
Definition await_getProjectId : M string :=
  do self <- get_this;
  do _ <- log EvGetProjectId;
  lift (getProjectId (authClient self)).

(** [this.authClient.request(config)]: the request is handed to the
    engine, with the interceptors installed at that moment; the result
    is the settlement of the promise returned. *)
Definition authClient_request (config : Req.t) : M (Completion GaxiosResponse) :=
  do self <- get_this;
  do w <- get_world;
  do _ <- log (EvRequest config (installed w (gaxiosInstance self)));
  ret (request (authClient self) config).

(** An invocation of the caller's callback; its result is [undefined]. *)
Definition invoke (callback : StorageTransportCallback) (args : CallbackArgs) : M (option string) :=
  do _ <- log (EvCallback args);
  match callback args with
  | None => ret None
  | Some e => throw e
  end.

(** ** The class [StorageTransport] *)

Section Transport.

Variable env : Env.

(** [constructor(options)].  A fresh engine is allocated when none is
    supplied.  An engine that is supplied is an object of the caller: it
    is entered in the world, with the interceptors it holds, so that no
    engine allocated later has its reference. *)
Definition constructor (options : TransportParameters.t) (w : World) : StorageTransport * World :=
  let g := default (fresh (dom (engines w))) (TransportParameters.gaxiosInstance options) in
  ({| authClient :=
        match TransportParameters.authClient options with
        | Some (IsGoogleAuth a) => a
        | Some (IsAuthClient wrapped) => wrapped
        | None => new_GoogleAuth env
        end;
      providedUserAgent := TransportParameters.userAgent options;
      retryOptions := TransportParameters.retryOptions options;
      baseUrl := TransportParameters.baseUrl options;
      timeout := TransportParameters.timeout options;
      projectId := TransportParameters.projectId options;
      useAuthWithCustomEndpoint := TransportParameters.useAuthWithCustomEndpoint options;
      gaxiosInstance := g |},
   match TransportParameters.gaxiosInstance options with
   | Some _ => {| module_projectId := module_projectId w;
                  engines := <[g := installed w g]> (engines w);
                  trace := trace w |}
   | None => {| module_projectId := module_projectId w;
                engines := <[g := []]> (engines w);
                trace := trace w |}
   end).

(** [#getUserAgentString()]. *)
Definition getUserAgentString (self : StorageTransport) : string :=
  let userAgent := util_getUserAgentString env in
  if truthy (providedUserAgent self)
  then default "" (providedUserAgent self) +:+ " " +:+ userAgent
  else userAgent.

(** The tracking string the transport computes for a call; [uuid] is
    the value [randomUUID()] draws for it. *)
Definition trackingString (uuid : string) : string :=
  util_getRuntimeTrackingString env +:+ " gccl/7.16.0-" +:+ util_getModuleFormat env
  +:+ " gccl-invocation-id/" +:+ uuid.

(** [#buildRequestHeaders(requestHeaders = {})]. *)
Definition buildRequestHeaders (self : StorageTransport) (uuid : string)
    (requestHeaders : option Fetch.HeadersInit) : Completion Fetch.Headers :=
  try! headers <- Fetch.new_Headers (default (Fetch.HRecord []) requestHeaders);
  try! headers <- Fetch.hset headers "User-Agent" (getUserAgentString self);
  Fetch.hset headers "x-goog-api-client" (trackingString uuid).

(** [String(v)] for the value of a query parameter. *)
Definition QueryValue_toString (v : QueryValue) : string :=
  match v with
  | QString s => s
  | QNumber repr => repr
  | QBoolean true => "true"
  | QBoolean false => "false"
  | QUndefined => "undefined"
  end.

(** The name-value pairs [new URLSearchParams(queryParameters)] holds. *)
Definition searchParams_of (queryParameters : StorageQueryParameters) : list (string * string) :=
  map (fun kv => (kv.1, QueryValue_toString kv.2)) queryParameters.

(** [#buildRequestQueryParams(queryParameters)]. *)
Definition buildRequestQueryParams (queryParameters : StorageQueryParameters) : string :=
  FormUrlencoded.serialize (searchParams_of queryParameters).

(** [new URL(s)]. *)
Definition new_URL (s : string) : Completion Url.URL :=
  match URL_parse env s with
  | Some u => Ok u
  | None => Throw (TypeError "Invalid URL")
  end.

(** [#isValidUrl(url)]. *)
Definition isValidUrl (url : string) : bool :=
  match new_URL url with
  | Ok _ => true
  | Throw _ => false
  end.

(** [v !== p] for the value of a query parameter and a project id. *)
Definition strict_ne (v : QueryValue) (p : option string) : bool :=
  match v, p with
  | QString s, Some s' => negb (String.eqb s s')
  | QUndefined, None => false
  | _, _ => true
  end.

Definition QueryValue_of (p : option string) : QueryValue :=
  match p with
  | Some s => QString s
  | None => QUndefined
  end.

(** [o[k] = v]: the entry of an existing property keeps its place. *)
Fixpoint assign {V} (k : string) (v : V) (o : list (string * V)) : list (string * V) :=
  match o with
  | [] => [(k, v)]
  | (k', v') :: r => if String.eqb k' k then (k', v) :: r else (k', v') :: assign k v r
  end.

(** The test and the assignment on the reserved [project] parameter, at
    the head of [#buildUrl]. *)
Definition substitute_project (this_projectId module_projectId : option string)
    (queryParameters : StorageQueryParameters) : StorageQueryParameters :=
  match FormUrlencoded.assoc "project" queryParameters with
  | Some project =>
      if strict_ne project this_projectId || strict_ne project module_projectId
      then assign "project" (QueryValue_of this_projectId) queryParameters
      else queryParameters
  | None => queryParameters
  end.

(** The URL [#buildUrl] starts from: [pathUri] if it parses, else
    [pathUri] after the base URL. *)
Definition locate (self : StorageTransport) (pathUri : string) : Completion Url.URL :=
  if isValidUrl pathUri then new_URL pathUri
  else new_URL (baseUrl self +:+ pathUri).

(** [#buildUrl(pathUri = '', queryParameters = {})].  The assignment to
    [queryParameters.project] is made on the object of the descriptor;
    the model keeps the value [#buildUrl] goes on with, the only one the
    transport reads. *)
Definition buildUrl (pathUri : option string) (queryParameters : option StorageQueryParameters) : M Url.URL :=
  let pathUri := default "" pathUri in
  let queryParameters := default [] queryParameters in
  do self <- get_this;
  do w <- get_world;
  let queryParameters :=
    substitute_project (projectId self) (module_projectId w) queryParameters in
  let qp := buildRequestQueryParams queryParameters in
  do url <- lift (locate self pathUri);
  ret (Url.set_search url qp).

(** The closure [getProjectId] of [makeRequest]. *)
Definition getProjectId_closure (reqOpts : Req.t) : M string :=
  if truthy (Req.projectId reqOpts) then ret (default "" (Req.projectId reqOpts))
  else
    do p <- await_getProjectId;
    do _ <- modify (put_module_projectId p);
    ret p.

(** The [retryConfig] written first in the object handed to
    [authClient.request]. *)
Definition retryConfig_of (o : RetryOptions.t) : RetryConfig.t :=
  {| RetryConfig.retry := RetryOptions.maxRetries o;
     RetryConfig.noResponseRetries := RetryOptions.maxRetries o;
     RetryConfig.maxRetryDelay := RetryOptions.maxRetryDelay o;
     RetryConfig.retryDelayMultiplier := RetryOptions.retryDelayMultiplier o;
     RetryConfig.shouldRetry := RetryOptions.retryableErrorFn o;
     RetryConfig.totalTimeout := RetryOptions.totalTimeout o |}.

(** The object literal handed to [authClient.request]:
    [{retryConfig: {...}, ...reqOpts, headers, url, timeout: this.timeout}]. *)
Definition config_of (self : StorageTransport) (reqOpts : Req.t)
    (headers : Fetch.Headers) (url : Url.URL) : Req.t :=
  Req.with_timeout (timeout self)
    (Req.with_url url
       (Req.with_headers headers
          (Req.spread reqOpts
             (Req.with_retryConfig (Some (retryConfig_of (retryOptions self)))
                Req.empty)))).

(** [callback(null, resp.data, resp)], [callback(err, null, err.response)]
    and [callback(e)]. *)
Definition args_success (resp : GaxiosResponse) : CallbackArgs :=
  {| cb_err := Null; cb_data := Value (resp_data resp); cb_fullResponse := Value resp |}.

Definition args_failure (err : GaxiosError) : CallbackArgs :=
  {| cb_err := Value err; cb_data := Null; cb_fullResponse := of_option (err_response err) |}.

Definition args_error_only (e : GaxiosError) : CallbackArgs :=
  {| cb_err := Value e; cb_data := Undefined; cb_fullResponse := Undefined |}.

(** The header assembly at the head of [makeRequest]: the headers built,
    then the command tag appended to the tracking header. *)
Definition assembleHeaders (self : StorageTransport) (uuid : string) (reqOpts : Req.t)
    : Completion Fetch.Headers :=
  try! headers <- buildRequestHeaders self uuid (Req.headers reqOpts);
  if truthy (Req.GCCL_GCS_CMD_KEY reqOpts) then
    Fetch.hset headers "x-goog-api-client"
      (default "null" (Fetch.hget "x-goog-api-client" headers)
       +:+ " gccl-gcs-cmd/" +:+ default "" (Req.GCCL_GCS_CMD_KEY reqOpts))
  else Ok headers.

(** The interceptor installation of [makeRequest]. *)
Definition installInterceptors (reqOpts : Req.t) : M unit :=
  match Req.interceptors reqOpts with
  | Some l =>
      do _ <- interceptors_request_clear;
      for_of l interceptors_request_add
  | None => ret tt
  end.

(** The [try] block of [makeRequest] up to the call of
    [authClient.request]; the result is the promise of the request, given
    by its settlement. *)
Definition resolveAndDispatch (reqOpts : Req.t) (headers : Fetch.Headers)
    : M (Completion GaxiosResponse) :=
  do _projectId <- getProjectId_closure reqOpts;
  do _ <- (if truthy (Some _projectId) then
             do _ <- modify (put_module_projectId _projectId);
             modify (put_this_projectId _projectId)
           else ret tt);
  do url <- buildUrl (Url.toString <$> Req.url reqOpts) (Req.queryParameters reqOpts);
  do self <- get_this;
  authClient_request (config_of self reqOpts headers url).

(** The promise chain [makeRequest] returns from its [try] block. *)
Definition settle (callback : option StorageTransportCallback)
    (requestPromise : Completion GaxiosResponse) : M (option string) :=
  match callback with
  | Some callback =>
      try_catch
        (then_ requestPromise (fun resp => invoke callback (args_success resp)))
        (fun err => invoke callback (args_failure err))
  | None => then_ requestPromise (fun resp => ret (Some (resp_data resp)))
  end.

(** The [catch] block of [makeRequest]. *)
Definition on_error (callback : option StorageTransportCallback) (e : GaxiosError)
    : M (option string) :=
  match callback with
  | Some callback => invoke callback (args_error_only e)
  | None => throw e
  end.

(** [makeRequest(reqOpts, callback?)].  The result is how the promise the
    function returns settles: resolved with a value ([None] is
    [undefined]) or rejected.  What the [try] block returns is a promise
    chain: a computation that runs out of reach of the [catch] block. *)
Definition makeRequest (reqOpts : Req.t) (callback : option StorageTransportCallback)
    (uuid : string) : M (option string) :=
  do self <- get_this;
  do headers <- lift (assembleHeaders self uuid reqOpts);
  do _ <- installInterceptors reqOpts;
  do chain <-
    try_catch
      (do requestPromise <- resolveAndDispatch reqOpts headers;
       ret (settle callback requestPromise))
      (fun e => do r <- on_error callback e; ret (ret r));
  chain.

End Transport.


(** ** Running a call and observing it *)

(** A call of [makeRequest] on the instance [self] in the world [w]. *)
Definition call (env : Env) (self : StorageTransport) (reqOpts : Req.t)
    (callback : option StorageTransportCallback) (uuid : string) (w : World)
    : Completion (option string) * Machine :=
  makeRequest env reqOpts callback uuid {| this := self; world := w |}.

(** The events a call added to the trace of [w]. *)
Definition events_since (w : World) (s : Machine) : list Event :=
  drop (length (trace w)) (trace (world s)).

Fixpoint callbacks (evs : list Event) : list CallbackArgs :=
  match evs with
  | [] => []
  | EvCallback a :: r => a :: callbacks r
  | _ :: r => callbacks r
  end.

(** The requests handed to [authClient.request], each with the
    interceptors installed at that moment. *)
Fixpoint dispatched (evs : list Event) : list (Req.t * list GaxiosInterceptor) :=
  match evs with
  | [] => []
  | EvRequest c i :: r => (c, i) :: dispatched r
  | _ :: r => dispatched r
  end.

(** The elements of a list, each once, in the order of first occurrence:
    what a cleared [Set] holds after they are added one by one. *)
Definition added_in_order (l : list GaxiosInterceptor) : list GaxiosInterceptor :=
  foldl (fun acc x => Set_add x acc) [] l.

(** ** The steps of a call, as changes of state

    These summaries are what the lemmas on [makeRequest] are stated
    with; [makeRequest_run] below proves that they describe it. *)

Definition add_events (evs : list Event) (s : Machine) : Machine :=
  {| this := this s;
     world := {| module_projectId := module_projectId (world s);
                 engines := engines (world s);
                 trace := trace (world s) ++ evs |} |}.

(** The state after the interceptor installation. *)
Definition installed_state (reqOpts : Req.t) (s : Machine) : Machine :=
  match Req.interceptors reqOpts with
  | Some l => put_installed (added_in_order l) s
  | None => s
  end.

(** How the project id of a call is resolved: the id of the descriptor
    if it is truthy, else the lookup of the auth client. *)
Definition resolution (self : StorageTransport) (reqOpts : Req.t) : Completion string :=
  if truthy (Req.projectId reqOpts) then Ok (default "" (Req.projectId reqOpts))
  else getProjectId (authClient self).

Definition lookup_events (reqOpts : Req.t) : list Event :=
  if truthy (Req.projectId reqOpts) then [] else [EvGetProjectId].

(** The state after the resolution to [pid]. *)
Definition resolved_state (pid : string) (s : Machine) : Machine :=
  if truthy (Some pid) then put_this_projectId pid (put_module_projectId pid s)
  else put_module_projectId pid s.

(** The instance after the resolution to [pid]: [this.projectId] is
    assigned if [pid] is truthy. *)
Definition resolved_instance (pid : string) (self : StorageTransport) : StorageTransport :=
  if truthy (Some pid) then set_projectId pid self else self.

(** The interceptors installed on the engine of a call at its dispatch. *)
Definition installed_at_dispatch (self : StorageTransport) (reqOpts : Req.t) (w : World)
    : list GaxiosInterceptor :=
  match Req.interceptors reqOpts with
  | Some l => added_in_order l
  | None => installed w (gaxiosInstance self)
  end.

(** The URL [#buildUrl] returns for a descriptor, on an instance and a
    value of the module variable. *)
Definition url_for (env : Env) (self : StorageTransport) (module_pid : option string)
    (reqOpts : Req.t) : Completion Url.URL :=
  try! url <- locate env self (default "" (Url.toString <$> Req.url reqOpts));
  Ok (Url.set_search url
        (buildRequestQueryParams
           (substitute_project (projectId self) module_pid
              (default [] (Req.queryParameters reqOpts))))).

(** What the [catch] block does and yields. *)
Definition on_error_events (callback : option StorageTransportCallback) (e : GaxiosError)
    : list Event :=
  match callback with
  | Some _ => [EvCallback (args_error_only e)]
  | None => []
  end.

Definition on_error_result (callback : option StorageTransportCallback) (e : GaxiosError)
    : Completion (option string) :=
  match callback with
  | Some callback =>
      match callback (args_error_only e) with
      | None => Ok None
      | Some e' => Throw e'
      end
  | None => Throw e
  end.

(** What the promise chain does and yields, from the settlement of the
    request. *)
Definition settle_events (callback : option StorageTransportCallback)
    (requestPromise : Completion GaxiosResponse) : list Event :=
  match callback, requestPromise with
  | Some callback, Ok resp =>
      EvCallback (args_success resp)
      :: match callback (args_success resp) with
         | None => []
         | Some e => [EvCallback (args_failure e)]
         end
  | Some _, Throw err => [EvCallback (args_failure err)]
  | None, _ => []
  end.

Definition settle_result (callback : option StorageTransportCallback)
    (requestPromise : Completion GaxiosResponse) : Completion (option string) :=
  match callback, requestPromise with
  | Some callback, Ok resp =>
      match callback (args_success resp) with
      | None => Ok None
      | Some e =>
          match callback (args_failure e) with
          | None => Ok None
          | Some e' => Throw e'
          end
      end
  | Some callback, Throw err =>
      match callback (args_failure err) with
      | None => Ok None
      | Some e' => Throw e'
      end
  | None, Ok resp => Ok (Some (resp_data resp))
  | None, Throw err => Throw err
  end.

(** The world a call leaves. *)
Definition after {A} (r : Completion A * Machine) : World := world r.2.

(** ** A concrete environment, for the examples *)

Module Sample.

(** A parser for plain lower-case [http(s)://host/path?query#fragment]
    strings, on which it agrees with the URL standard; anything else is
    refused, as a relative path is. *)
Definition parse (s : string) : option Url.URL :=
  if String.prefix "http://" s || String.prefix "https://" s then
    let hash := FormUrlencoded.split_first "#" s in
    let qm := FormUrlencoded.split_first "?" hash.1 in
    Some {| Url.url_special := true;
            Url.url_prefix := qm.1;
            Url.url_query := qm.2;
            Url.url_fragment := hash.2 |}
  else None.

Definition response (data : string) : GaxiosResponse :=
  {| resp_data := data; resp_status := 200 |}.

Definition notFound : GaxiosError :=
  {| err_message := "Not Found";
     err_response := Some {| resp_data := "{}"; resp_status := 404 |} |}.

Definition noProject : GaxiosError :=
  {| err_message := "Unable to detect a Project Id in the current environment.";
     err_response := None |}.

(** An auth client that knows the project and answers every request,
    and one that finds no project. *)
Definition auth : GoogleAuth :=
  {| getProjectId := Ok "correct-id";
     request := fun _ => Ok (response "{kind: storage#bucket}") |}.

Definition authWithoutProject : GoogleAuth :=
  {| getProjectId := Throw noProject;
     request := fun _ => Throw notFound |}.

Definition env : Env :=
  {| util_getUserAgentString := "gcloud-node-storage/7.16.0";
     util_getRuntimeTrackingString := "gl-node/20.11.0";
     util_getModuleFormat := "CJS";
     URL_parse := parse;
     new_GoogleAuth := auth |}.

(** The options of the conformance tests. *)
Definition options (a : option AuthClientOption) : TransportParameters.t :=
  {| TransportParameters.apiEndpoint := "http://localhost:9000/";
     TransportParameters.authClient := a;
     TransportParameters.baseUrl := "http://localhost:9000/";
     TransportParameters.customEndpoint := Some true;
     TransportParameters.email := None;
     TransportParameters.retryOptions :=
       {| RetryOptions.maxRetries := Some 3%Q;
          RetryOptions.maxRetryDelay := Some 32%Q;
          RetryOptions.retryDelayMultiplier := Some (1 # 100)%Q;
          RetryOptions.retryableErrorFn := None;
          RetryOptions.totalTimeout := Some 20000%Q |};
     TransportParameters.scopes := ["http://www.googleapis.com/auth/devstorage.full_control"];
     TransportParameters.timeout := Some 600%Q;
     TransportParameters.token := None;
     TransportParameters.useAuthWithCustomEndpoint := Some true;
     TransportParameters.userAgent := Some "retry-test";
     TransportParameters.gaxiosInstance := None;
     TransportParameters.projectId := Some "my-project-id" |}.

Definition world0 : World :=
  {| module_projectId := None; engines := ∅; trace := [] |}.

Definition transport : StorageTransport := (constructor env (options None) world0).1.
Definition world : World := (constructor env (options None) world0).2.

Definition transportWithoutProject : StorageTransport :=
  (constructor env (options (Some (IsGoogleAuth authWithoutProject))) world0).1.

(** A descriptor by the properties the examples set. *)
Definition descriptor (method url : string) (headers : list (string * string))
    (queryParameters : option StorageQueryParameters) : Req.t :=
  {| Req.method := Some method;
     Req.url := Some (Url.UString url);
     Req.body := None;
     Req.headers := Some (Fetch.HRecord headers);
     Req.timeout := None;
     Req.retryConfig := None;
     Req.retry := Some true;
     Req.GCCL_GCS_CMD_KEY := None;
     Req.interceptors := None;
     Req.autoPaginate := None;
     Req.autoPaginateVal := None;
     Req.maxRetries := None;
     Req.objectMode := None;
     Req.projectId := None;
     Req.queryParameters := queryParameters;
     Req.shouldReturnStream := None |}.

(** [getTestBenchRetryTest] of the conformance tests. *)
Definition getRetryTest : Req.t :=
  descriptor "GET" "retry_test/abc" [("x-retry-test-id", "abc")] None.

Definition listBuckets : Req.t :=
  descriptor "GET" "storage/v1/b" [("Content-Type", "application/json")]
    (Some [("maxResults", QNumber "10"); ("project", QString "wrong-id");
           ("prefix", QString "a b&c")]).

(** The descriptor given by some properties, written over another. *)
Definition tagged (tag : string) : Req.t :=
  {| Req.method := None; Req.url := None; Req.body := None; Req.headers := None;
     Req.timeout := None; Req.retryConfig := None; Req.retry := None;
     Req.GCCL_GCS_CMD_KEY := Some tag; Req.interceptors := None;
     Req.autoPaginate := None; Req.autoPaginateVal := None; Req.maxRetries := None;
     Req.objectMode := None; Req.projectId := None; Req.queryParameters := None;
     Req.shouldReturnStream := None |}.

Definition intercepted (l : list GaxiosInterceptor) : Req.t :=
  {| Req.method := None; Req.url := None; Req.body := None; Req.headers := None;
     Req.timeout := None; Req.retryConfig := None; Req.retry := None;
     Req.GCCL_GCS_CMD_KEY := None; Req.interceptors := Some l;
     Req.autoPaginate := None; Req.autoPaginateVal := None; Req.maxRetries := None;
     Req.objectMode := None; Req.projectId := None; Req.queryParameters := None;
     Req.shouldReturnStream := None |}.

Definition forProject (p : string) : Req.t :=
  {| Req.method := None; Req.url := None; Req.body := None; Req.headers := None;
     Req.timeout := None; Req.retryConfig := None; Req.retry := None;
     Req.GCCL_GCS_CMD_KEY := None; Req.interceptors := None;
     Req.autoPaginate := None; Req.autoPaginateVal := None; Req.maxRetries := None;
     Req.objectMode := None; Req.projectId := Some p; Req.queryParameters := None;
     Req.shouldReturnStream := None |}.

Definition noRetry : RetryConfig.t :=
  {| RetryConfig.retry := Some 0%Q;
     RetryConfig.noResponseRetries := Some 0%Q;
     RetryConfig.maxRetryDelay := None;
     RetryConfig.retryDelayMultiplier := None;
     RetryConfig.shouldRetry := None;
     RetryConfig.totalTimeout := None |}.

Definition withOwnRetryConfig : Req.t :=
  Req.with_retryConfig (Some noRetry) getRetryTest.

(** The sample request with the property [retryConfig: undefined]. *)
Definition withUndefinedRetryConfig : Req.t :=
  Req.with_retryConfig None getRetryTest.

Definition taggedList : Req.t := Req.spread (tagged "storage.buckets.list") listBuckets.

Definition interceptedGet : Req.t := Req.spread (intercepted [7; 3; 7]) getRetryTest.

Definition overriding : Req.t := Req.spread (forProject "override") listBuckets.

(** An absolute URL that carries a query of its own. *)
Definition absolute : Req.t :=
  descriptor "GET" "https://storage.googleapis.com/storage/v1/b?project=other" [] None.

(** A callback that returns. *)
Definition quiet : StorageTransportCallback := fun _ => None.


Definition worldAfterListing : World :=
  after (call env transport listBuckets None "uuid-1" world).

End Sample.

(** ** Validity of the headers of a descriptor *)

Module FetchValidity.
Import Fetch.

(** An entry that [Headers.prototype.append] accepts. *)
Definition entry_ok (kv : string * string) : bool :=
  valid_name kv.1 && valid_value (normalize kv.2).

(** An initialiser that [new Headers] accepts. *)
Definition init_ok (init : HeadersInit) : bool :=
  match init with
  | HRecord entries => forallb entry_ok entries
  | HObject _ => true
  end.

(** The number of headers of a name in a header list. *)
Definition count_named (n : string) (h : Headers) : nat :=
  length (List.filter (matches n) h).

End FetchValidity.

(** ** More of the concrete environment *)

Module SampleMore.

(** An auth client whose lookup finds the empty string. *)
Definition authWithEmptyProject : GoogleAuth :=
  {| getProjectId := Ok "";
     request := fun _ => Ok (Sample.response "{}") |}.

(** The options of the conformance tests, without a project id and with
    a given base URL and auth client and, possibly, a given engine. *)
Definition options (base : string) (a : GoogleAuth) (engine : option nat)
    : TransportParameters.t :=
  {| TransportParameters.apiEndpoint := base;
     TransportParameters.authClient := Some (IsGoogleAuth a);
     TransportParameters.baseUrl := base;
     TransportParameters.customEndpoint := Some true;
     TransportParameters.email := None;
     TransportParameters.retryOptions :=
       TransportParameters.retryOptions (Sample.options None);
     TransportParameters.scopes := [];
     TransportParameters.timeout := None;
     TransportParameters.token := None;
     TransportParameters.useAuthWithCustomEndpoint := None;
     TransportParameters.userAgent := None;
     TransportParameters.gaxiosInstance := engine;
     TransportParameters.projectId := None |}.

(** A transport without a project id whose auth client finds the empty
    string, and one whose base URL is no URL. *)
Definition transportWithEmptyProject : StorageTransport :=
  (constructor Sample.env (options "http://localhost:9000/" authWithEmptyProject None)
     Sample.world0).1.

Definition transportWithoutBase : StorageTransport :=
  (constructor Sample.env (options "localhost" Sample.auth None) Sample.world0).1.

(** A callback that throws when it is handed a response. *)
Definition complaint : GaxiosError := TypeError "callback failed".

Definition picky : StorageTransportCallback :=
  fun args => match cb_err args with Null => Some complaint | _ => None end.

End SampleMore.


(** ** [JSON.stringify] on the request body of the conformance tests *)

Module JSON.

Import Bytes.

(** The quotation mark. *)
Definition dquote : ascii := ascii_of_N 34.

Definition hex_lower (n : N) : ascii :=
  if (n <? 10)%N then ascii_of_N (48 + n) else ascii_of_N (87 + n).

(** An escape sequence: a backslash and what follows it. *)
Definition escape (s : string) : string := String (ascii_of_N 92) s.

(** [QuoteJSONString] on one byte of a well-formed string: the quotation
    mark, the backslash and the control characters are escaped. *)
Definition quote_byte (c : ascii) : string :=
  match code c with
  | 8%N => escape "b"
  | 9%N => escape "t"
  | 10%N => escape "n"
  | 12%N => escape "f"
  | 13%N => escape "r"
  | 34%N => escape (String dquote "")
  | 92%N => escape (escape "")
  | n =>
      if (n <? 32)%N
      then escape ("u00" +:+ String (hex_lower (n / 16)) (String (hex_lower (n mod 16)) ""))
      else String c ""
  end.

Fixpoint quote_bytes (s : string) : string :=
  match s with
  | EmptyString => ""
  | String c r => quote_byte c +:+ quote_bytes r
  end.

(** [JSON.stringify(s)] for a string. *)
Definition quote (s : string) : string :=
  String dquote (quote_bytes s +:+ String dquote "").

(** [JSON.stringify(l)] for an array of strings. *)
Definition array (l : list string) : string :=
  "[" +:+ join "," (map quote l) +:+ "]".

(** [JSON.stringify({instructions: {[methodName]: instructions}})]. *)
Definition stringify_requestBody (methodName : string) (instructions : list string) : string :=
  "{" +:+ quote "instructions" +:+ ":{" +:+ quote methodName +:+ ":"
  +:+ array instructions +:+ "}}".

End JSON.

(** ** The conformance harness *)

Module Conformance.

Record RetryCase := { instructions : list string }.

Record Method := {
  name : string;
  resources : list string;
  group : option string }.

Record RetryTestCase := {
  id : Z;
  description : string;
  cases : list RetryCase;
  methods : list Method;
  preconditionProvided : bool;
  expectSuccess : bool }.

(** A [describe] block registered with the test runner: its title, and
    the instruction set and the method it is registered for. *)
Record Suite := {
  title : string;
  instructionSet : RetryCase;
  jsonMethod : Method }.

Section Harness.

Variable env : Env.

(** The map from the names of the methods of the test data to the names
    of the library methods that exercise them. *)
Variable methodMap : gmap string (list string).

(** The function list [executeScenario] takes for a method of a test
    case: by the group of the method if it has one, else by its name. *)
Definition functionList (m : Method) : option (list string) :=
  match group m with
  | Some g => methodMap !! g
  | None => methodMap !! name m
  end.

(** [executeScenario(testCase)]: the [describe] blocks it registers, in
    order. *)
Definition executeScenario (testCase : RetryTestCase) : list Suite :=
  flat_map
    (fun instructionSet =>
       flat_map
         (fun jsonMethod =>
            map
              (fun storageMethodString =>
                 {| title := storageMethodString;
                    instructionSet := instructionSet;
                    jsonMethod := jsonMethod |})
              (default [] (functionList jsonMethod)))
         (methods testCase))
    (cases testCase).

(** [createTestBenchRetryTest(instructions, methodName, storageTransport)]. *)
Definition createTestBenchRetryTest (instructions : list string) (methodName : string)
    (storageTransport : StorageTransport) (uuid : string) (w : World)
    : Completion (option string) * Machine :=
  let requestOptions :=
    {| Req.method := Some "POST";
       Req.url := Some (Url.UString "retry_test");
       Req.body := Some (JSON.stringify_requestBody methodName instructions);
       Req.headers := Some (Fetch.HRecord [("Content-Type", "application/json")]);
       Req.timeout := None; Req.retryConfig := None; Req.retry := None;
       Req.GCCL_GCS_CMD_KEY := None; Req.interceptors := None;
       Req.autoPaginate := None; Req.autoPaginateVal := None; Req.maxRetries := None;
       Req.objectMode := None; Req.projectId := None; Req.queryParameters := None;
       Req.shouldReturnStream := None |} in
  call env storageTransport requestOptions None uuid w.

(** [getTestBenchRetryTest(testId, storageTransport)]. *)
Definition getTestBenchRetryTest (testId : string) (storageTransport : StorageTransport)
    (uuid : string) (w : World) : Completion (option string) * Machine :=
  call env storageTransport
    {| Req.method := Some "GET";
       Req.url := Some (Url.UString ("retry_test/" +:+ testId));
       Req.body := None;
       Req.headers := Some (Fetch.HRecord [("x-retry-test-id", testId)]);
       Req.timeout := None; Req.retryConfig := None; Req.retry := Some true;
       Req.GCCL_GCS_CMD_KEY := None; Req.interceptors := None;
       Req.autoPaginate := None; Req.autoPaginateVal := None; Req.maxRetries := None;
       Req.objectMode := None; Req.projectId := None; Req.queryParameters := None;
       Req.shouldReturnStream := None |}
    None uuid w.

End Harness.

(** [new Map(Object.entries({}))], the map of the harness. *)
Definition methodMap : gmap string (list string) := list_to_map [].

(** [shortUUID()], from the value [uuid.v1()] returns:
    [uuid.v1().split('-').shift()]. *)
Definition shortUUID (v1 : string) : option string :=
  head (FormUrlencoded.split_on "-" v1).

End Conformance.
(** * Properties *)

(** ** Byte strings *)

Section StringFacts.

Lemma append_assoc (a b c : string) : (a +:+ b) +:+ c = a +:+ (b +:+ c).
Proof. induction a as [|x a IH]; [reflexivity | cbn; f_equal; exact IH]. Qed.

Lemma all_chars_app (p : ascii -> bool) (a b : string) :
  all_chars p (a +:+ b) = all_chars p a && all_chars p b.
Proof.
  induction a as [|x a IH]; simpl; [reflexivity|].
  rewrite IH. now rewrite andb_assoc.
Qed.

Lemma all_chars_weaken (p q : ascii -> bool) (s : string) :
  (forall c, p c = true -> q c = true) ->
  all_chars p s = true -> all_chars q s = true.
Proof.
  intros Hpq. induction s as [|c s IH]; simpl; [reflexivity|].
  intros [Hc Hs]%andb_true_iff. rewrite (Hpq _ Hc). simpl. now apply IH.
Qed.

Lemma truthy_Some (s : string) : truthy (Some s) = true <-> s <> "".
Proof.
  unfold truthy. destruct (String.eqb_spec s ""); simpl; split; congruence.
Qed.

Lemma truthy_inv (o : option string) :
  truthy o = true -> exists s, o = Some s /\ s <> "".
Proof.
  destruct o as [s|]; [|discriminate].
  intros H. exists s. split; [reflexivity | now apply truthy_Some].
Qed.

End StringFacts.

(** ** The urlencoded serializer and parser *)

Module FormUrlencodedFacts.
Import FormUrlencoded.

Ltac each_byte c := destruct c as [[] [] [] [] [] [] [] []].

Lemma encode_byte_plain (c : ascii) : all_chars plain (encode_byte c) = true.
Proof. each_byte c; reflexivity. Qed.

Lemma encode_plain (s : string) : all_chars plain (encode s) = true.
Proof.
  induction s as [|c s IH]; simpl; [reflexivity|].
  rewrite all_chars_app, encode_byte_plain, IH. reflexivity.
Qed.

Lemma plus_to_space_app (a b : string) :
  plus_to_space (a +:+ b) = plus_to_space a +:+ plus_to_space b.
Proof. induction a as [|x a IH]; [reflexivity | cbn; f_equal; exact IH]. Qed.

(** Decoding undoes the encoding of one byte, whatever follows. *)
Lemma pct_decode_encode_byte (c : ascii) (r : string) :
  pct_decode (plus_to_space (encode_byte c) +:+ r) = String c (pct_decode r).
Proof. each_byte c; reflexivity. Qed.

Lemma decode_encode (s : string) : decode (encode s) = s.
Proof.
  unfold decode. induction s as [|c s IH]; simpl; [reflexivity|].
  rewrite plus_to_space_app, pct_decode_encode_byte, IH. reflexivity.
Qed.

Lemma plain_not_eq (c : ascii) : plain c = true -> Ascii.eqb c "=" = false.
Proof. each_byte c; (reflexivity || discriminate). Qed.

Lemma plain_not_amp (c : ascii) : plain c = true -> Ascii.eqb c "&" = false.
Proof. each_byte c; (reflexivity || discriminate). Qed.

Lemma split_first_plain (a b : string) :
  all_chars plain a = true ->
  split_first "=" (a +:+ String "=" b) = (a, Some b).
Proof.
  induction a as [|c a IH]; simpl; [reflexivity|].
  intros [Hc Ha]%andb_true_iff.
  rewrite (plain_not_eq _ Hc), (IH Ha). reflexivity.
Qed.

Lemma parse_pair_serialize_pair (kv : string * string) :
  parse_pair (serialize_pair kv) = kv.
Proof.
  destruct kv as [k v]. unfold parse_pair, serialize_pair. simpl.
  rewrite split_first_plain by apply encode_plain. simpl.
  now rewrite !decode_encode.
Qed.

Lemma plain_no_amp (s : string) : all_chars plain s = true -> no_amp s = true.
Proof.
  apply all_chars_weaken. intros c Hc. now rewrite (plain_not_amp _ Hc).
Qed.

Lemma serialize_pair_no_amp (kv : string * string) : no_amp (serialize_pair kv) = true.
Proof.
  unfold serialize_pair, no_amp. rewrite !all_chars_app. simpl.
  fold (no_amp (encode kv.1)). fold (no_amp (encode kv.2)).
  now rewrite !plain_no_amp by apply encode_plain.
Qed.

Lemma serialize_pair_nonempty (kv : string * string) :
  String.eqb (serialize_pair kv) "" = false.
Proof.
  unfold serialize_pair. destruct (encode kv.1); reflexivity.
Qed.

Lemma split_on_no_sep (a : string) :
  no_amp a = true -> split_on "&" a = [a].
Proof.
  induction a as [|c a IH]; simpl; [reflexivity|].
  intros [Hc Ha]%andb_true_iff. apply negb_true_iff in Hc.
  rewrite Hc, (IH Ha). reflexivity.
Qed.

Lemma split_on_app (a b : string) :
  no_amp a = true -> split_on "&" (a +:+ String "&" b) = a :: split_on "&" b.
Proof.
  induction a as [|c a IH]; simpl; [reflexivity|].
  intros [Hc Ha]%andb_true_iff. apply negb_true_iff in Hc.
  rewrite Hc, (IH Ha). reflexivity.
Qed.

Lemma split_on_join (x : string) (l : list string) :
  forallb no_amp (x :: l) = true ->
  split_on "&" (join "&" (x :: l)) = x :: l.
Proof.
  revert x. induction l as [|y l IH]; intros x.
  - simpl. rewrite andb_true_r. apply split_on_no_sep.
  - intros [Hx Hl]%andb_true_iff.
    change (join "&" (x :: y :: l)) with (x +:+ String "&" (join "&" (y :: l))).
    rewrite split_on_app by exact Hx. now rewrite IH.
Qed.

(** The parser reads back what the serializer wrote. *)
Lemma parse_serialize (l : list (string * string)) : parse (serialize l) = l.
Proof.
  unfold parse, serialize. destruct l as [|kv l]; [reflexivity|].
  change (map serialize_pair (kv :: l))
    with (serialize_pair kv :: map serialize_pair l).
  rewrite split_on_join.
  - assert (Hkeep : forall l' : list (string * string),
               List.filter (fun p => negb (String.eqb p "")) (map serialize_pair l')
               = map serialize_pair l').
    { induction l' as [|p l' IH]; simpl; [reflexivity|].
      now rewrite serialize_pair_nonempty, IH. }
    change (serialize_pair kv :: map serialize_pair l)
      with (map serialize_pair (kv :: l)).
    rewrite (Hkeep (kv :: l)). rewrite map_map.
    clear Hkeep. induction (kv :: l) as [|p l' IH]; simpl; [reflexivity|].
    now rewrite parse_pair_serialize_pair, IH.
  - change (serialize_pair kv :: map serialize_pair l)
      with (map serialize_pair (kv :: l)).
    induction (kv :: l) as [|p l' IH]; [reflexivity|].
    cbn [map forallb]. now rewrite serialize_pair_no_amp, IH.
Qed.

Lemma query_byte_app (a b : string) :
  all_chars query_byte (a +:+ b) = all_chars query_byte a && all_chars query_byte b.
Proof. apply all_chars_app. Qed.

Lemma plain_query_byte (s : string) :
  all_chars plain s = true -> all_chars query_byte s = true.
Proof.
  apply all_chars_weaken. intros c Hc. unfold query_byte. now rewrite Hc.
Qed.

Lemma serialize_pair_query_bytes (kv : string * string) :
  all_chars query_byte (serialize_pair kv) = true.
Proof.
  unfold serialize_pair. rewrite !query_byte_app. simpl.
  now rewrite !plain_query_byte by apply encode_plain.
Qed.

(** The serializer writes only letters, digits and [*-._+%=&]. *)
Lemma serialize_query_bytes (l : list (string * string)) :
  all_chars query_byte (serialize l) = true.
Proof.
  unfold serialize. induction l as [|kv l IH]; [reflexivity|].
  destruct l as [|kv' l].
  - simpl. apply serialize_pair_query_bytes.
  - change (join "&" (map serialize_pair (kv :: kv' :: l)))
      with (serialize_pair kv +:+ String "&" (join "&" (map serialize_pair (kv' :: l)))).
    rewrite query_byte_app. cbn [all_chars].
    now rewrite serialize_pair_query_bytes, IH.
Qed.

Lemma serialize_empty_iff (l : list (string * string)) :
  String.eqb (serialize l) "" = true <-> l = [].
Proof.
  split; [|intros ->; reflexivity].
  destruct l as [|kv l]; [reflexivity|]. unfold serialize.
  destruct l as [|kv' l]; simpl.
  - now rewrite serialize_pair_nonempty.
  - unfold serialize_pair at 1. destruct (encode kv.1); discriminate.
Qed.

Lemma assoc_assign {V} (k : string) (v : V) (l : list (string * V)) :
  assoc k (assign k v l) = Some v.
Proof.
  induction l as [|[k' v'] l IH]; simpl.
  - now rewrite String.eqb_refl.
  - destruct (String.eqb k' k) eqn:E; simpl; rewrite E; [reflexivity | exact IH].
Qed.

Lemma assoc_assign_ne {V} (k k' : string) (v : V) (l : list (string * V)) :
  k' <> k -> assoc k' (assign k v l) = assoc k' l.
Proof.
  intros Hne. induction l as [|[k0 v0] l IH]; simpl.
  - destruct (String.eqb_spec k k'); [congruence | reflexivity].
  - destruct (String.eqb_spec k0 k) as [->|]; simpl.
    + destruct (String.eqb_spec k k'); [congruence | reflexivity].
    + now rewrite IH.
Qed.

Lemma assoc_map {V W} (f : V -> W) (k : string) (l : list (string * V)) :
  assoc k (map (fun kv => (kv.1, f kv.2)) l) = f <$> assoc k l.
Proof.
  induction l as [|[k' v'] l IH]; simpl; [reflexivity|].
  destruct (String.eqb k' k); [reflexivity | exact IH].
Qed.

Lemma keys_assign {V} (k : string) (v : V) (l : list (string * V)) :
  is_Some (assoc k l) -> map fst (assign k v l) = map fst l.
Proof.
  induction l as [|[k' v'] l IH]; simpl.
  - intros [? ?]; discriminate.
  - destruct (String.eqb k' k) eqn:E; simpl; [reflexivity|].
    intros H. now rewrite IH.
Qed.

End FormUrlencodedFacts.

(** ** The search setter on a serialized query *)

Module UrlFacts.
Import FormUrlencoded FormUrlencodedFacts Url.

Lemma query_byte_kept (special : bool) (c : ascii) :
  query_byte c = true ->
  in_query_set special c = false
  /\ ((code c =? 9)%N || (code c =? 10)%N || (code c =? 13)%N) = false
  /\ Ascii.eqb c "?" = false.
Proof.
  destruct special; each_byte c; (discriminate || (intros _; repeat split; reflexivity)).
Qed.

Lemma query_encode_id (special : bool) (s : string) :
  all_chars query_byte s = true -> query_encode special s = s.
Proof.
  induction s as [|c s IH]; simpl; [reflexivity|].
  intros [Hc Hs]%andb_true_iff.
  destruct (query_byte_kept special c Hc) as (-> & _ & _).
  simpl. now rewrite IH.
Qed.

Lemma strip_tab_newline_id (s : string) :
  all_chars query_byte s = true -> strip_tab_newline s = s.
Proof.
  induction s as [|c s IH]; simpl; [reflexivity|].
  intros [Hc Hs]%andb_true_iff.
  destruct (query_byte_kept false c Hc) as (_ & -> & _).
  now rewrite IH.
Qed.

Lemma strip_question_mark_id (s : string) :
  all_chars query_byte s = true -> strip_question_mark s = s.
Proof.
  destruct s as [|c s]; simpl; [reflexivity|].
  intros [Hc Hs]%andb_true_iff.
  now destruct (query_byte_kept false c Hc) as (_ & _ & ->).
Qed.

(** Setting [search] to a serialized query stores it as it is; an empty
    list of pairs removes the query. *)
Lemma set_search_serialize (u : URL) (l : list (string * string)) :
  url_query (set_search u (serialize l))
  = match l with [] => None | _ => Some (serialize l) end.
Proof.
  unfold set_search. cbn [url_query].
  destruct (String.eqb (serialize l) "") eqn:E.
  - apply serialize_empty_iff in E. now subst.
  - pose proof (serialize_query_bytes l) as Hq.
    rewrite strip_question_mark_id, strip_tab_newline_id, query_encode_id by exact Hq.
    destruct l; [discriminate | reflexivity].
Qed.

(** Reading the parameters back from the URL gives the pairs that were
    serialized. *)
Lemma searchParams_get_set_search (name : string) (u : URL) (l : list (string * string)) :
  searchParams_get name (set_search u (serialize l)) = assoc name l.
Proof.
  unfold searchParams_get. rewrite set_search_serialize.
  destruct l as [|kv l]; [reflexivity|]. now rewrite parse_serialize.
Qed.

End UrlFacts.

(** ** The header list *)

Module FetchFacts.
Import Fetch.

Lemma check_Ok (n v v' : string) :
  check n v = Ok v' ->
  v' = normalize v /\ valid_name n = true /\ valid_value v' = true.
Proof.
  unfold check. destruct (valid_name n); [|discriminate].
  destruct (valid_value (normalize v)) eqn:E; [|discriminate].
  intros [= <-]. auto.
Qed.

Lemma filter_matches_removed (n : string) (h : Headers) :
  List.filter (matches n) (List.filter (fun kv => negb (matches n kv)) h) = [].
Proof.
  induction h as [|kv h IH]; simpl; [reflexivity|].
  destruct (matches n kv) eqn:E; simpl; [exact IH|]. now rewrite E.
Qed.

Lemma filter_matches_kept (m n : string) (h : Headers) :
  (forall kv, matches n kv = true -> matches m kv = false) ->
  List.filter (matches m) (List.filter (fun kv => negb (matches n kv)) h)
  = List.filter (matches m) h.
Proof.
  intros Hx. induction h as [|kv h IH]; simpl; [reflexivity|].
  destruct (matches n kv) eqn:E; simpl.
  - now rewrite (Hx _ E).
  - now rewrite IH.
Qed.

Lemma filter_matches_replace_first (n v : string) (h : Headers) :
  existsb (matches n) h = true ->
  List.filter (matches n) (replace_first n v h) = [(lower n, v)].
Proof.
  induction h as [|kv h IH]; simpl; [discriminate|].
  destruct (matches n kv) eqn:E; simpl.
  - intros _. unfold matches at 1. cbn [fst]. fold (matches n kv). rewrite E.
    f_equal.
    + unfold matches in E. now apply String.eqb_eq in E as ->.
    + apply filter_matches_removed.
  - rewrite E. exact IH.
Qed.

Lemma filter_matches_other (m n v : string) (h : Headers) :
  lower m <> lower n ->
  List.filter (matches m) (replace_first n v h) = List.filter (matches m) h.
Proof.
  intros Hne.
  assert (Hx : forall kv, matches n kv = true -> matches m kv = false).
  { intros kv H. unfold matches in *. apply String.eqb_eq in H.
    apply String.eqb_neq. congruence. }
  induction h as [|kv h IH]; simpl; [reflexivity|].
  destruct (matches n kv) eqn:E; simpl.
  - rewrite (Hx _ E). unfold matches at 1. cbn [fst].
    fold (matches m kv). rewrite (Hx _ E).
    now apply filter_matches_kept.
  - now rewrite IH.
Qed.

Lemma existsb_filter_nil (n : string) (h : Headers) :
  existsb (matches n) h = false -> List.filter (matches n) h = [].
Proof.
  induction h as [|kv h IH]; simpl; [reflexivity|].
  destruct (matches n kv); simpl; [discriminate | exact IH].
Qed.

(** After [set], [get] of the same name returns the normalised value. *)
Lemma hget_hset (h h' : Headers) (n v : string) :
  hset h n v = Ok h' -> hget n h' = Some (normalize v).
Proof.
  unfold hset. destruct (check n v) as [v'|] eqn:C; [|discriminate].
  apply check_Ok in C as (-> & _ & _). simpl. intros [= <-]. unfold hget.
  destruct (existsb (matches n) h) eqn:E.
  - now rewrite filter_matches_replace_first.
  - rewrite List.filter_app, (existsb_filter_nil _ _ E). simpl.
    unfold matches. cbn [fst]. now rewrite String.eqb_refl.
Qed.

(** [set] leaves the headers of other names as they are. *)
Lemma hget_hset_other (h h' : Headers) (m n v : string) :
  hset h n v = Ok h' -> lower m <> lower n -> hget m h' = hget m h.
Proof.
  unfold hset. destruct (check n v) as [v'|] eqn:C; [|discriminate].
  simpl. intros [= <-] Hne. unfold hget.
  destruct (existsb (matches n) h) eqn:E.
  - now rewrite filter_matches_other.
  - rewrite List.filter_app. simpl. unfold matches at 2. cbn [fst].
    destruct (String.eqb_spec (lower n) (lower m)); [congruence|].
    now rewrite app_nil_r.
Qed.

Lemma happend_Ok (h h' : Headers) (n v : string) :
  happend h n v = Ok h' -> h' = h ++ [(lower n, normalize v)].
Proof.
  unfold happend. destruct (check n v) as [v'|] eqn:C; [|discriminate].
  apply check_Ok in C as (-> & _ & _). now intros [= <-].
Qed.

Lemma fill_filter (n : string) (entries : list (string * string)) (acc h : Headers) :
  fill acc entries = Ok h ->
  List.filter (matches n) h
  = List.filter (matches n) acc
    ++ map (fun kv => (lower kv.1, normalize kv.2)) (named n entries).
Proof.
  revert acc. induction entries as [|[k v] entries IH]; intros acc; cbn [fill].
  - intros [= <-]. now rewrite app_nil_r.
  - unfold cbind. destruct (happend acc k v) as [acc'|] eqn:Ha; [|discriminate].
    apply happend_Ok in Ha as ->. intros Hfill. rewrite (IH _ Hfill).
    rewrite List.filter_app, <- app_assoc. f_equal.
    unfold named. cbn [List.filter]. unfold matches at 1. cbn [fst].
    now destruct (String.eqb (lower k) (lower n)).
Qed.

(** The headers made of a plain object hold, under each name, the
    normalised values of the entries of that name. *)
Lemma hget_new_Headers (n : string) (init : HeadersInit) (h : Headers) :
  new_Headers init = Ok h -> hget n h = init_get n init.
Proof.
  destruct init as [entries|h0]; cbn [new_Headers init_get]; [|now intros [= <-]].
  intros Hfill. unfold hget. rewrite (fill_filter n _ _ _ Hfill). cbn [List.filter app].
  destruct (named n entries) as [|kv l]; [reflexivity|].
  cbn [map]. now rewrite map_map.
Qed.

(** ** Normalisation of header values *)

Lemma lstrip_blank (s : string) : lstrip s = "" <-> blank s = true.
Proof.
  unfold blank. induction s as [|c s IH]; simpl; [tauto|].
  destruct (is_http_ws c); simpl; [exact IH | split; discriminate].
Qed.

Lemma rstrip_blank (s : string) : rstrip s = "" <-> blank s = true.
Proof.
  unfold blank. induction s as [|c s IH]; simpl; [tauto|].
  destruct (rstrip s) eqn:E.
  - destruct (is_http_ws c); simpl; [tauto|]. split; discriminate.
  - split; [discriminate|]. intros [_ H]%andb_true_iff.
    apply IH in H. discriminate.
Qed.

Lemma blank_lstrip (s : string) : blank (lstrip s) = blank s.
Proof.
  unfold blank. induction s as [|c s IH]; simpl; [reflexivity|].
  destruct (is_http_ws c) eqn:E; simpl; [exact IH | now rewrite E].
Qed.

Lemma normalize_blank (s : string) : normalize s = "" <-> blank s = true.
Proof. unfold normalize. now rewrite rstrip_blank, blank_lstrip. Qed.

Lemma blank_app (a b : string) : blank (a +:+ b) = blank a && blank b.
Proof. apply all_chars_app. Qed.

(** A normalised value does not start with whitespace. *)
Lemma lstrip_head (s : string) (c : ascii) (r : string) :
  lstrip s = String c r -> is_http_ws c = false.
Proof.
  induction s as [|x s IH]; simpl; [discriminate|].
  destruct (is_http_ws x) eqn:E; [exact IH|]. now intros [= <- _].
Qed.

Lemma rstrip_head (s : string) (c : ascii) (r : string) :
  rstrip s = String c r -> exists r', s = String c r'.
Proof.
  destruct s as [|x s]; simpl; [discriminate|].
  destruct (rstrip s); [destruct (is_http_ws x); [discriminate|]|];
    intros [= <- _]; eauto.
Qed.

Lemma normalize_head (s : string) (c : ascii) (r : string) :
  normalize s = String c r -> is_http_ws c = false.
Proof.
  unfold normalize. intros [r' H]%rstrip_head. now apply lstrip_head in H.
Qed.

Lemma rstrip_after (a : string) (c : ascii) (b : string) :
  is_http_ws c = false -> rstrip (a +:+ String c b) = a +:+ String c (rstrip b).
Proof.
  intros Hc. induction a as [|x a IH]; simpl.
  - rewrite Hc. now destruct (rstrip b).
  - rewrite IH. now destruct a.
Qed.

End FetchFacts.

(** ** The steps of [makeRequest] *)

Section TransportFacts.

Variable env : Env.

Lemma put_installed_twice (a b : list GaxiosInterceptor) (s : Machine) :
  put_installed a (put_installed b s) = put_installed a s.
Proof.
  unfold put_installed. cbn. now rewrite insert_insert_eq.
Qed.

Lemma installed_put_installed (a : list GaxiosInterceptor) (s : Machine) :
  installed (world (put_installed a s)) (gaxiosInstance (this s)) = a.
Proof.
  unfold installed, put_installed. cbn. now rewrite lookup_insert_eq.
Qed.

Lemma for_of_add_run (l cur : list GaxiosInterceptor) (s : Machine) :
  for_of l interceptors_request_add (put_installed cur s)
  = (Ok tt, put_installed (foldl (fun acc x => Set_add x acc) cur l) s).
Proof.
  revert cur. induction l as [|x l IH]; intros cur; [reflexivity|].
  cbn [for_of]. unfold bind at 1.
  assert (Hadd : interceptors_request_add x (put_installed cur s)
                 = (Ok tt, put_installed (Set_add x cur) s)).
  { unfold interceptors_request_add, bind, get_this, get_world, modify.
    change (this (put_installed cur s)) with (this s).
    now rewrite installed_put_installed, put_installed_twice. }
  rewrite Hadd. apply IH.
Qed.

Lemma installInterceptors_run (reqOpts : Req.t) (s : Machine) :
  installInterceptors reqOpts s = (Ok tt, installed_state reqOpts s).
Proof.
  unfold installInterceptors, installed_state.
  destruct (Req.interceptors reqOpts) as [l|]; [|reflexivity].
  unfold bind, interceptors_request_clear, modify. apply for_of_add_run.
Qed.

Lemma add_events_nil (s : Machine) : add_events [] s = s.
Proof.
  destruct s as [t [m e tr]]. unfold add_events. cbn. now rewrite app_nil_r.
Qed.

Lemma add_event_add_events (ev : Event) (s : Machine) :
  add_event ev s = add_events [ev] s.
Proof. reflexivity. Qed.

Lemma add_events_twice (a b : list Event) (s : Machine) :
  add_events b (add_events a s) = add_events (a ++ b) s.
Proof. unfold add_events. cbn. now rewrite app_assoc. Qed.

Lemma on_error_run (callback : option StorageTransportCallback) (e : GaxiosError) (s : Machine) :
  on_error callback e s
  = (on_error_result callback e, add_events (on_error_events callback e) s).
Proof.
  unfold on_error, on_error_result, on_error_events.
  destruct callback as [cb|]; cbn.
  - unfold invoke, bind, log, modify. destruct (cb (args_error_only e)); reflexivity.
  - unfold throw. now rewrite add_events_nil.
Qed.

Lemma settle_run (callback : option StorageTransportCallback)
    (requestPromise : Completion GaxiosResponse) (s : Machine) :
  settle callback requestPromise s
  = (settle_result callback requestPromise,
     add_events (settle_events callback requestPromise) s).
Proof.
  unfold settle, settle_result, settle_events.
  destruct callback as [cb|], requestPromise as [resp|err]; cbn;
    unfold try_catch, then_, invoke, bind, log, modify, throw, ret; cbn.
  - destruct (cb (args_success resp)) as [e|]; [|reflexivity].
    destruct (cb (args_failure e));
      now rewrite !add_event_add_events, add_events_twice.
  - destruct (cb (args_failure err)); reflexivity.
  - now rewrite add_events_nil.
  - now rewrite add_events_nil.
Qed.

Lemma buildUrl_run (reqOpts : Req.t) (s : Machine) :
  buildUrl env (Url.toString <$> Req.url reqOpts) (Req.queryParameters reqOpts) s
  = (url_for env (this s) (module_projectId (world s)) reqOpts, s).
Proof.
  unfold buildUrl, url_for, bind, get_this, get_world, lift, ret, cbind.
  now destruct (locate env (this s) _).
Qed.

Lemma module_resolved_state (pid : string) (s : Machine) :
  module_projectId (world (resolved_state pid s)) = Some pid.
Proof. unfold resolved_state. now destruct (truthy (Some pid)). Qed.

(** The [try] block up to the dispatch. *)
Lemma resolveAndDispatch_run (reqOpts : Req.t) (h : Fetch.Headers) (s : Machine) :
  resolveAndDispatch env reqOpts h s
  = match resolution (this s) reqOpts with
    | Throw e => (Throw e, add_events (lookup_events reqOpts) s)
    | Ok pid =>
        let s2 := resolved_state pid s in
        match url_for env (this s2) (Some pid) reqOpts with
        | Throw e => (Throw e, add_events (lookup_events reqOpts) s2)
        | Ok u =>
            let config := config_of (this s2) reqOpts h u in
            (Ok (request (authClient (this s)) config),
             add_events
               (lookup_events reqOpts
                ++ [EvRequest config (installed (world s) (gaxiosInstance (this s)))])
               s2)
        end
    end.
Proof.
  unfold resolveAndDispatch, getProjectId_closure, resolution, lookup_events,
    resolved_state, await_getProjectId, authClient_request.
  unfold bind, log, modify, get_this, get_world, lift, ret.
  destruct (truthy (Req.projectId reqOpts)) eqn:Hex.
  - apply truthy_inv in Hex as (p & Hp & Hne). rewrite Hp. cbn [from_option id].
    rewrite (proj2 (truthy_Some p) Hne). cbv beta iota zeta. rewrite buildUrl_run.
    cbn [this world put_this_projectId put_module_projectId module_projectId
         set_projectId].
    match goal with |- context [url_for env ?t ?m reqOpts] =>
      destruct (url_for env t m reqOpts) as [u|e] end.
    + reflexivity.
    + now rewrite add_events_nil.
  - cbv beta iota zeta.
    destruct (getProjectId (authClient (this s))) as [p|e]; [|reflexivity].
    destruct (truthy (Some p)) eqn:Ht; cbv beta iota zeta; rewrite buildUrl_run;
      cbn [this world put_this_projectId put_module_projectId module_projectId
           add_event set_projectId];
      match goal with |- context [url_for env ?t ?m reqOpts] =>
        destruct (url_for env t m reqOpts) as [u|e] end;
      try reflexivity;
      unfold add_event, add_events, installed; cbn; now rewrite <- app_assoc.
Qed.

(** A call of [makeRequest], step by step. *)
Lemma makeRequest_run (self : StorageTransport) (reqOpts : Req.t)
    (callback : option StorageTransportCallback) (uuid : string) (w : World) :
  call env self reqOpts callback uuid w
  = match assembleHeaders env self uuid reqOpts with
    | Throw e => (Throw e, {| this := self; world := w |})
    | Ok h =>
        let s1 := installed_state reqOpts {| this := self; world := w |} in
        match resolution self reqOpts with
        | Throw e =>
            (on_error_result callback e,
             add_events (lookup_events reqOpts ++ on_error_events callback e) s1)
        | Ok pid =>
            let s2 := resolved_state pid s1 in
            match url_for env (this s2) (Some pid) reqOpts with
            | Throw e =>
                (on_error_result callback e,
                 add_events (lookup_events reqOpts ++ on_error_events callback e) s2)
            | Ok u =>
                let config := config_of (this s2) reqOpts h u in
                let requestPromise := request (authClient self) config in
                (settle_result callback requestPromise,
                 add_events
                   (lookup_events reqOpts
                    ++ EvRequest config (installed (world s1) (gaxiosInstance self))
                       :: settle_events callback requestPromise)
                   s2)
            end
        end
    end.
Proof.
  unfold call, makeRequest. unfold bind at 1, get_this at 1. cbn [this].
  unfold bind at 1, lift at 1.
  destruct (assembleHeaders env self uuid reqOpts) as [h|e]; [|reflexivity].
  unfold bind at 1. rewrite installInterceptors_run.
  set (s1 := installed_state reqOpts {| this := self; world := w |}).
  assert (Hthis : this s1 = self).
  { unfold s1, installed_state. now destruct (Req.interceptors reqOpts). }
  unfold bind at 1, try_catch. unfold bind at 1.
  rewrite resolveAndDispatch_run, Hthis.
  destruct (resolution self reqOpts) as [pid|e].
  - cbn zeta.
    destruct (url_for env (this (resolved_state pid s1)) (Some pid) reqOpts) as [u|e].
    + unfold ret at 1. rewrite settle_run, add_events_twice.
      now rewrite <- app_assoc.
    + unfold bind. rewrite on_error_run, add_events_twice.
      now destruct (on_error_result callback e).
  - unfold bind. rewrite on_error_run, add_events_twice.
    now destruct (on_error_result callback e).
Qed.

(** *** What a call leaves behind *)

Lemma this_installed_state (reqOpts : Req.t) (s : Machine) :
  this (installed_state reqOpts s) = this s.
Proof. unfold installed_state. now destruct (Req.interceptors reqOpts). Qed.

Lemma trace_installed_state (reqOpts : Req.t) (s : Machine) :
  trace (world (installed_state reqOpts s)) = trace (world s).
Proof. unfold installed_state. now destruct (Req.interceptors reqOpts). Qed.

Lemma module_installed_state (reqOpts : Req.t) (s : Machine) :
  module_projectId (world (installed_state reqOpts s)) = module_projectId (world s).
Proof. unfold installed_state. now destruct (Req.interceptors reqOpts). Qed.

Lemma engines_installed_state (reqOpts : Req.t) (s : Machine) :
  engines (world (installed_state reqOpts s))
  = match Req.interceptors reqOpts with
    | Some l => <[gaxiosInstance (this s) := added_in_order l]> (engines (world s))
    | None => engines (world s)
    end.
Proof. unfold installed_state. now destruct (Req.interceptors reqOpts). Qed.

Lemma installed_installed_state (self : StorageTransport) (reqOpts : Req.t) (w : World) :
  installed (world (installed_state reqOpts {| this := self; world := w |}))
    (gaxiosInstance self)
  = installed_at_dispatch self reqOpts w.
Proof.
  unfold installed_state, installed_at_dispatch.
  destruct (Req.interceptors reqOpts) as [l|]; [|reflexivity].
  apply (installed_put_installed _ {| this := self; world := w |}).
Qed.

Lemma this_resolved (pid : string) (s : Machine) :
  this (resolved_state pid s) = resolved_instance pid (this s).
Proof. unfold resolved_state, resolved_instance. now destruct (truthy (Some pid)). Qed.

Lemma trace_resolved_state (pid : string) (s : Machine) :
  trace (world (resolved_state pid s)) = trace (world s).
Proof. unfold resolved_state. now destruct (truthy (Some pid)). Qed.

Lemma engines_resolved_state (pid : string) (s : Machine) :
  engines (world (resolved_state pid s)) = engines (world s).
Proof. unfold resolved_state. now destruct (truthy (Some pid)). Qed.

Lemma events_since_add_events (w : World) (evs : list Event) (s : Machine) :
  trace (world s) = trace w -> events_since w (add_events evs s) = evs.
Proof.
  intros H. unfold events_since, add_events. cbn. rewrite H.
  now rewrite drop_app_length.
Qed.

Lemma events_since_start (w : World) (self : StorageTransport) :
  events_since w {| this := self; world := w |} = [].
Proof. unfold events_since. cbn. apply drop_all. Qed.

Lemma dispatched_app (a b : list Event) :
  dispatched (a ++ b) = dispatched a ++ dispatched b.
Proof.
  induction a as [|[| |] a IH]; cbn; [reflexivity | exact IH | | exact IH].
  now rewrite IH.
Qed.

Lemma callbacks_app (a b : list Event) :
  callbacks (a ++ b) = callbacks a ++ callbacks b.
Proof.
  induction a as [|[| |] a IH]; cbn; [reflexivity | exact IH | exact IH |].
  now rewrite IH.
Qed.

Lemma dispatched_lookup_events (reqOpts : Req.t) : dispatched (lookup_events reqOpts) = [].
Proof. unfold lookup_events. now destruct (truthy _). Qed.

Lemma callbacks_lookup_events (reqOpts : Req.t) : callbacks (lookup_events reqOpts) = [].
Proof. unfold lookup_events. now destruct (truthy _). Qed.

Lemma dispatched_on_error_events (callback : option StorageTransportCallback) (e : GaxiosError) :
  dispatched (on_error_events callback e) = [].
Proof. now destruct callback. Qed.

Lemma dispatched_settle_events (callback : option StorageTransportCallback)
    (p : Completion GaxiosResponse) :
  dispatched (settle_events callback p) = [].
Proof.
  destruct callback as [cb|], p as [resp|err]; cbn; try reflexivity.
  now destruct (cb (args_success resp)).
Qed.

(** The events of a call. *)
Lemma call_events (self : StorageTransport) (reqOpts : Req.t)
    (callback : option StorageTransportCallback) (uuid : string) (w : World) :
  events_since w (call env self reqOpts callback uuid w).2
  = match assembleHeaders env self uuid reqOpts with
    | Throw e => []
    | Ok h =>
        match resolution self reqOpts with
        | Throw e => lookup_events reqOpts ++ on_error_events callback e
        | Ok pid =>
            let self' := resolved_instance pid self in
            match url_for env self' (Some pid) reqOpts with
            | Throw e => lookup_events reqOpts ++ on_error_events callback e
            | Ok u =>
                let config := config_of self' reqOpts h u in
                lookup_events reqOpts
                ++ EvRequest config (installed_at_dispatch self reqOpts w)
                   :: settle_events callback (request (authClient self) config)
            end
        end
    end.
Proof.
  rewrite makeRequest_run.
  destruct (assembleHeaders env self uuid reqOpts) as [h|e];
    [|apply events_since_start].
  cbn zeta. rewrite installed_installed_state.
  destruct (resolution self reqOpts) as [pid|e].
  - rewrite this_resolved, this_installed_state. cbn [this].
    destruct (url_for env (resolved_instance pid self) (Some pid) reqOpts) as [u|e];
      cbn [snd]; apply events_since_add_events;
      now rewrite trace_resolved_state, trace_installed_state.
  - cbn [snd]. apply events_since_add_events. now rewrite trace_installed_state.
Qed.

(** How the promise of a call settles. *)
Lemma call_result (self : StorageTransport) (reqOpts : Req.t)
    (callback : option StorageTransportCallback) (uuid : string) (w : World) :
  (call env self reqOpts callback uuid w).1
  = match assembleHeaders env self uuid reqOpts with
    | Throw e => Throw e
    | Ok h =>
        match resolution self reqOpts with
        | Throw e => on_error_result callback e
        | Ok pid =>
            let self' := resolved_instance pid self in
            match url_for env self' (Some pid) reqOpts with
            | Throw e => on_error_result callback e
            | Ok u =>
                settle_result callback
                  (request (authClient self) (config_of self' reqOpts h u))
            end
        end
    end.
Proof.
  rewrite makeRequest_run.
  destruct (assembleHeaders env self uuid reqOpts) as [h|e]; [|reflexivity].
  cbn zeta.
  destruct (resolution self reqOpts) as [pid|e]; [|reflexivity].
  rewrite this_resolved, this_installed_state. cbn [this].
  now destruct (url_for env (resolved_instance pid self) (Some pid) reqOpts).
Qed.

(** The instance, the module variable and the engines after a call. *)
Lemma call_this (self : StorageTransport) (reqOpts : Req.t)
    (callback : option StorageTransportCallback) (uuid : string) (w : World) :
  this (call env self reqOpts callback uuid w).2
  = match assembleHeaders env self uuid reqOpts, resolution self reqOpts with
    | Ok _, Ok pid => resolved_instance pid self
    | _, _ => self
    end.
Proof.
  rewrite makeRequest_run.
  destruct (assembleHeaders env self uuid reqOpts) as [h|e]; [|reflexivity].
  cbn zeta.
  destruct (resolution self reqOpts) as [pid|e].
  - rewrite this_resolved, this_installed_state. cbn [this].
    destruct (url_for env (resolved_instance pid self) (Some pid) reqOpts);
      cbn [snd add_events this]; now rewrite this_resolved, this_installed_state.
  - cbn [snd add_events this]. now rewrite this_installed_state.
Qed.

Lemma call_module_projectId (self : StorageTransport) (reqOpts : Req.t)
    (callback : option StorageTransportCallback) (uuid : string) (w : World) :
  module_projectId (world (call env self reqOpts callback uuid w).2)
  = match assembleHeaders env self uuid reqOpts, resolution self reqOpts with
    | Ok _, Ok pid => Some pid
    | _, _ => module_projectId w
    end.
Proof.
  rewrite makeRequest_run.
  destruct (assembleHeaders env self uuid reqOpts) as [h|e]; [|reflexivity].
  cbn zeta.
  destruct (resolution self reqOpts) as [pid|e].
  - rewrite this_resolved, this_installed_state. cbn [this].
    destruct (url_for env (resolved_instance pid self) (Some pid) reqOpts);
      cbn [snd add_events world module_projectId];
      now rewrite module_resolved_state.
  - cbn [snd add_events world module_projectId].
    now rewrite module_installed_state.
Qed.

Lemma call_engines (self : StorageTransport) (reqOpts : Req.t)
    (callback : option StorageTransportCallback) (uuid : string) (w : World) :
  engines (world (call env self reqOpts callback uuid w).2)
  = match assembleHeaders env self uuid reqOpts, Req.interceptors reqOpts with
    | Ok _, Some l => <[gaxiosInstance self := added_in_order l]> (engines w)
    | _, _ => engines w
    end.
Proof.
  rewrite makeRequest_run.
  destruct (assembleHeaders env self uuid reqOpts) as [h|e];
    [|now destruct (Req.interceptors reqOpts)].
  cbn zeta.
  destruct (resolution self reqOpts) as [pid|e].
  - rewrite this_resolved, this_installed_state. cbn [this].
    destruct (url_for env (resolved_instance pid self) (Some pid) reqOpts);
      cbn [snd add_events world engines];
      now rewrite engines_resolved_state, engines_installed_state.
  - cbn [snd add_events world engines]. now rewrite engines_installed_state.
Qed.

(** The requests of a call: none, or one. *)
Lemma call_dispatched (self : StorageTransport) (reqOpts : Req.t)
    (callback : option StorageTransportCallback) (uuid : string) (w : World) :
  dispatched (events_since w (call env self reqOpts callback uuid w).2)
  = match assembleHeaders env self uuid reqOpts, resolution self reqOpts with
    | Ok h, Ok pid =>
        match url_for env (resolved_instance pid self) (Some pid) reqOpts with
        | Ok u =>
            [(config_of (resolved_instance pid self) reqOpts h u,
              installed_at_dispatch self reqOpts w)]
        | Throw _ => []
        end
    | _, _ => []
    end.
Proof.
  rewrite call_events.
  destruct (assembleHeaders env self uuid reqOpts) as [h|e]; [|reflexivity].
  destruct (resolution self reqOpts) as [pid|e].
  - cbn zeta.
    destruct (url_for env (resolved_instance pid self) (Some pid) reqOpts) as [u|e];
      rewrite dispatched_app, dispatched_lookup_events; cbn.
    + now rewrite dispatched_settle_events.
    + apply dispatched_on_error_events.
  - rewrite dispatched_app, dispatched_lookup_events. apply dispatched_on_error_events.
Qed.

(** A property of every request of a call is proved on the one request
    a call can make. *)
Lemma Forall_dispatched (self : StorageTransport) (reqOpts : Req.t)
    (callback : option StorageTransportCallback) (uuid : string) (w : World)
    (P : Req.t * list GaxiosInterceptor -> Prop) :
  (forall h pid u,
      assembleHeaders env self uuid reqOpts = Ok h ->
      resolution self reqOpts = Ok pid ->
      url_for env (resolved_instance pid self) (Some pid) reqOpts = Ok u ->
      P (config_of (resolved_instance pid self) reqOpts h u,
         installed_at_dispatch self reqOpts w)) ->
  Forall P (dispatched (events_since w (call env self reqOpts callback uuid w).2)).
Proof.
  intros HP. rewrite call_dispatched.
  destruct (assembleHeaders env self uuid reqOpts) as [h|e]; [|constructor].
  destruct (resolution self reqOpts) as [pid|e]; [|constructor].
  destruct (url_for env (resolved_instance pid self) (Some pid) reqOpts) as [u|e] eqn:Hu;
    [|constructor].
  constructor; [|constructor]. now apply HP.
Qed.

(** When a call hands a request to [authClient.request]: the headers
    assemble, the descriptor carries a project id or the lookup of the auth
    client succeeds, and the URL of the descriptor parses, alone or after
    the base URL. *)
Lemma call_dispatch_count (self : StorageTransport) (reqOpts : Req.t)
    (callback : option StorageTransportCallback) (uuid : string) (w : World) :
  length (dispatched (events_since w (call env self reqOpts callback uuid w).2))
  = if is_Ok (assembleHeaders env self uuid reqOpts)
       && (truthy (Req.projectId reqOpts) || is_Ok (getProjectId (authClient self)))
       && (isValidUrl env (default "" (Url.toString <$> Req.url reqOpts))
           || isValidUrl env
                (baseUrl self +:+ default "" (Url.toString <$> Req.url reqOpts)))
    then 1 else 0.
Proof.
  rewrite call_dispatched.
  destruct (assembleHeaders env self uuid reqOpts) as [h|]; [|reflexivity].
  cbn [is_Ok andb].
  assert (Hres : (truthy (Req.projectId reqOpts) || is_Ok (getProjectId (authClient self)))
                 = is_Ok (resolution self reqOpts)).
  { unfold resolution. now destruct (truthy (Req.projectId reqOpts)). }
  rewrite Hres. destruct (resolution self reqOpts) as [pid|]; [|reflexivity].
  cbn [is_Ok]. unfold url_for, cbind, locate.
  assert (baseUrl (resolved_instance pid self) = baseUrl self) as ->.
  { unfold resolved_instance. now destruct (truthy (Some pid)). }
  unfold isValidUrl, new_URL.
  destruct (URL_parse env (default "" _)); [reflexivity|].
  now destruct (URL_parse env (baseUrl self +:+ _)).
Qed.

End TransportFacts.

(** * The transport contract *)

Section Dispatch.

Variable env : Env.

(** What [config_of] puts in the object: the properties written after
    the spread, and the properties the spread copies. *)
Lemma config_of_fields (self : StorageTransport) (reqOpts : Req.t)
    (h : Fetch.Headers) (u : Url.URL) :
  Req.headers (config_of self reqOpts h u) = Some (Fetch.HObject h)
  /\ Req.url (config_of self reqOpts h u) = Some (Url.UObject u)
  /\ Req.timeout (config_of self reqOpts h u) = timeout self
  /\ Req.method (config_of self reqOpts h u) = Req.method reqOpts
  /\ Req.body (config_of self reqOpts h u) = Req.body reqOpts
  /\ Req.retryConfig (config_of self reqOpts h u)
     = Some (default (Some (retryConfig_of (retryOptions self)))
               (Req.retryConfig reqOpts)).
Proof.
  unfold config_of. cbn.
  destruct (Req.method reqOpts), (Req.body reqOpts), (Req.retryConfig reqOpts);
    repeat split; reflexivity.
Qed.

(** The URL of a dispatched request is the one [#buildUrl] returns on the
    instance and the module variable as the call leaves them. *)
Lemma buildUrl_after_call (self : StorageTransport) (reqOpts : Req.t)
    (callback : option StorageTransportCallback) (uuid : string) (w : World)
    (h : Fetch.Headers) (pid : string) :
  assembleHeaders env self uuid reqOpts = Ok h ->
  resolution self reqOpts = Ok pid ->
  (buildUrl env (Url.toString <$> Req.url reqOpts) (Req.queryParameters reqOpts)
     (call env self reqOpts callback uuid w).2).1
  = url_for env (resolved_instance pid self) (Some pid) reqOpts.
Proof.
  intros Hh Hp. rewrite buildUrl_run. cbn [fst].
  now rewrite call_this, call_module_projectId, Hh, Hp.
Qed.

(** C10. A call hands one object to [authClient.request] when its
    headers assemble, its project id resolves and its URL parses, and none
    otherwise.  In that object, [url], [headers] and [timeout] are the URL
    built by the transport, the headers it assembled and its configured
    timeout, whatever the descriptor carries under these three names: they
    are written after the descriptor is spread. *)
Theorem transport_fields_override (self : StorageTransport) (reqOpts : Req.t)
    (callback : option StorageTransportCallback) (uuid : string) (w : World) :
  let r := call env self reqOpts callback uuid w in
  let pathUri := default "" (Url.toString <$> Req.url reqOpts) in
  length (dispatched (events_since w r.2))
  = (if is_Ok (assembleHeaders env self uuid reqOpts)
        && (truthy (Req.projectId reqOpts) || is_Ok (getProjectId (authClient self)))
        && (isValidUrl env pathUri || isValidUrl env (baseUrl self +:+ pathUri))
     then 1 else 0)
  /\ Forall
       (fun ci =>
          exists h u,
            assembleHeaders env self uuid reqOpts = Ok h
            /\ (buildUrl env (Url.toString <$> Req.url reqOpts)
                  (Req.queryParameters reqOpts) r.2).1 = Ok u
            /\ Req.url ci.1 = Some (Url.UObject u)
            /\ Req.headers ci.1 = Some (Fetch.HObject h)
            /\ Req.timeout ci.1 = timeout self)
       (dispatched (events_since w r.2)).
Proof.
  intros r pathUri. subst r pathUri. split; [apply call_dispatch_count|].
  apply Forall_dispatched. intros h pid u Hh Hp Hu.
  exists h, u. cbn [fst].
  rewrite (buildUrl_after_call _ _ _ _ _ h pid Hh Hp), Hu.
  destruct (config_of_fields (resolved_instance pid self) reqOpts h u)
    as (H1 & H2 & H3 & _).
  repeat split; try assumption.
  rewrite H3. unfold resolved_instance. now destruct (truthy (Some pid)).
Qed.

(** The constructor keeps the options the dispatch reads. *)
Lemma constructor_fields (options : TransportParameters.t) (w0 : World) :
  retryOptions (constructor env options w0).1 = TransportParameters.retryOptions options
  /\ timeout (constructor env options w0).1 = TransportParameters.timeout options
  /\ baseUrl (constructor env options w0).1 = TransportParameters.baseUrl options
  /\ providedUserAgent (constructor env options w0).1 = TransportParameters.userAgent options
  /\ projectId (constructor env options w0).1 = TransportParameters.projectId options.
Proof. repeat split; reflexivity. Qed.

Lemma resolved_instance_fields (pid : string) (self : StorageTransport) :
  retryOptions (resolved_instance pid self) = retryOptions self
  /\ timeout (resolved_instance pid self) = timeout self
  /\ baseUrl (resolved_instance pid self) = baseUrl self
  /\ authClient (resolved_instance pid self) = authClient self
  /\ gaxiosInstance (resolved_instance pid self) = gaxiosInstance self
  /\ projectId (resolved_instance pid self)
     = if truthy (Some pid) then Some pid else projectId self.
Proof.
  unfold resolved_instance. destruct (truthy (Some pid)); repeat split; reflexivity.
Qed.

(** C6, as amended. For a transport constructed from [options], the object
    handed to [authClient.request] carries the method and the body of the
    descriptor, the built URL, the assembled headers and the timeout of
    the options; its retry policy is the one of the options
    ([retry] and [noResponseRetries] are [maxRetries], [shouldRetry] is
    [retryableErrorFn], the three others under their own names) when the
    descriptor has no property [retryConfig]; when it has one, the value
    of that property is passed in its place, be it a policy of its own
    or [undefined].  One object is handed over when the headers assemble,
    the project id resolves and the URL parses, and none otherwise. *)
Theorem dispatch_passes_retry_policy (options : TransportParameters.t) (w0 : World)
    (reqOpts : Req.t) (callback : option StorageTransportCallback) (uuid : string) :
  let self := (constructor env options w0).1 in
  let w := (constructor env options w0).2 in
  let r := call env self reqOpts callback uuid w in
  let configured := TransportParameters.retryOptions options in
  let pathUri := default "" (Url.toString <$> Req.url reqOpts) in
  length (dispatched (events_since w r.2))
  = (if is_Ok (assembleHeaders env self uuid reqOpts)
        && (truthy (Req.projectId reqOpts) || is_Ok (getProjectId (authClient self)))
        && (isValidUrl env pathUri
            || isValidUrl env (TransportParameters.baseUrl options +:+ pathUri))
     then 1 else 0)
  /\ Forall
       (fun ci =>
          match Req.retryConfig reqOpts with
          | Some own => Req.retryConfig ci.1 = Some own
          | None =>
              exists policy,
                Req.retryConfig ci.1 = Some (Some policy)
                /\ RetryConfig.retry policy = RetryOptions.maxRetries configured
                /\ RetryConfig.noResponseRetries policy = RetryOptions.maxRetries configured
                /\ RetryConfig.maxRetryDelay policy = RetryOptions.maxRetryDelay configured
                /\ RetryConfig.retryDelayMultiplier policy
                   = RetryOptions.retryDelayMultiplier configured
                /\ RetryConfig.shouldRetry policy = RetryOptions.retryableErrorFn configured
                /\ RetryConfig.totalTimeout policy = RetryOptions.totalTimeout configured
          end
          /\ Req.method ci.1 = Req.method reqOpts
          /\ Req.body ci.1 = Req.body reqOpts
          /\ Req.timeout ci.1 = TransportParameters.timeout options
          /\ exists h u,
               assembleHeaders env self uuid reqOpts = Ok h
               /\ (buildUrl env (Url.toString <$> Req.url reqOpts)
                     (Req.queryParameters reqOpts) r.2).1 = Ok u
               /\ Req.headers ci.1 = Some (Fetch.HObject h)
               /\ Req.url ci.1 = Some (Url.UObject u))
       (dispatched (events_since w r.2)).
Proof.
  intros self w r configured pathUri. subst r pathUri.
  split; [apply call_dispatch_count|].
  apply Forall_dispatched.
  intros h pid u Hh Hp Hu. cbn [fst].
  destruct (config_of_fields (resolved_instance pid self) reqOpts h u)
    as (H1 & H2 & H3 & H4 & H5 & H6).
  destruct (resolved_instance_fields pid self) as (R1 & R2 & _).
  rewrite R1 in H6. rewrite R2 in H3.
  split; [|split; [exact H4|split; [exact H5|split; [exact H3|]]]].
  - rewrite H6. destruct (Req.retryConfig reqOpts) as [own|]; [reflexivity|].
    eexists. split; [reflexivity|]. repeat split; reflexivity.
  - exists h, u. rewrite (buildUrl_after_call _ _ _ _ _ h pid Hh Hp), Hu.
    repeat split; assumption.
Qed.

End Dispatch.

(** C6, as stated, fails where the descriptor carries a [retryConfig]:
    the transport is configured with three retries, the descriptor asks
    for none, and the request is dispatched with none. *)
Lemma descriptor_retryConfig_wins :
  let r := call Sample.env Sample.transport Sample.withOwnRetryConfig None "uuid"
             Sample.world in
  RetryOptions.maxRetries (retryOptions Sample.transport) = Some 3%Q
  /\ Req.retryConfig Sample.withOwnRetryConfig = Some (Some Sample.noRetry)
  /\ map (fun ci => Req.retryConfig ci.1) (dispatched (events_since Sample.world r.2))
     = [Some (Some Sample.noRetry)]
  /\ RetryConfig.retry Sample.noRetry = Some 0%Q
  /\ ~ Forall
        (fun ci =>
           exists policy,
             Req.retryConfig ci.1 = Some (Some policy)
             /\ RetryConfig.retry policy
                = RetryOptions.maxRetries (retryOptions Sample.transport))
        (dispatched (events_since Sample.world r.2)).
Proof.
  assert (H : map (fun ci => Req.retryConfig ci.1)
                (dispatched
                   (events_since Sample.world
                      (call Sample.env Sample.transport Sample.withOwnRetryConfig None
                         "uuid" Sample.world).2))
              = [Some (Some Sample.noRetry)]) by (vm_compute; reflexivity).
  cbv zeta. split; [reflexivity|]. split; [reflexivity|]. split; [exact H|].
  split; [reflexivity|].
  intros HF.
  destruct (dispatched _) as [|ci l]; [discriminate H|].
  apply Forall_cons in HF as [(policy & Hrc & Hretry) _]. injection H as H _.
  rewrite H in Hrc. injection Hrc as <-. discriminate Hretry.
Qed.

(** The retry policy of the options reaches the engine when the
    descriptor has no [retryConfig]: the sample call of the conformance
    tests, which is dispatched once, with three retries.  With
    [retryConfig: undefined] in the descriptor, the request is dispatched
    with [undefined] for its retry policy. *)
Lemma dispatch_passes_retry_policy_sample :
  (let r := call Sample.env Sample.transport Sample.getRetryTest None "uuid"
              Sample.world in
   length (dispatched (events_since Sample.world r.2)) = 1
   /\ Forall
        (fun ci =>
           (exists policy,
              Req.retryConfig ci.1 = Some (Some policy)
              /\ RetryConfig.retry policy = Some 3%Q
              /\ RetryConfig.noResponseRetries policy = Some 3%Q)
           /\ Req.method ci.1 = Some "GET"
           /\ Req.timeout ci.1 = Some 600%Q)
        (dispatched (events_since Sample.world r.2)))
  /\ (let r := call Sample.env Sample.transport Sample.withUndefinedRetryConfig None
                 "uuid" Sample.world in
      length (dispatched (events_since Sample.world r.2)) = 1
      /\ Forall (fun ci => Req.retryConfig ci.1 = Some None)
           (dispatched (events_since Sample.world r.2))).
Proof.
  split.
  - destruct (dispatch_passes_retry_policy Sample.env (Sample.options None) Sample.world0
                Sample.getRetryTest None "uuid") as (Hn & HF).
    split; [exact Hn|].
    eapply Forall_impl; [exact HF|].
    intros ci (Hrc & Hm & _ & Ht & _). cbn in Hrc.
    destruct Hrc as (policy & Hp & Hr & Hnr & _).
    split; [exists policy; auto|]. split; [exact Hm | exact Ht].
  - destruct (dispatch_passes_retry_policy Sample.env (Sample.options None) Sample.world0
                Sample.withUndefinedRetryConfig None "uuid") as (Hn & HF).
    split; [exact Hn|].
    eapply Forall_impl; [exact HF|].
    intros ci (Hrc & _). exact Hrc.
Defined.

(** ** The dispatched URL *)

Section UrlConstruction.

Variable env : Env.

Import FormUrlencoded FormUrlencodedFacts UrlFacts.

Lemma strict_ne_false (v : QueryValue) (p : option string) :
  strict_ne v p = false -> v = QueryValue_of p.
Proof.
  destruct v, p; cbn; try discriminate; [|reflexivity].
  intros H. apply negb_false_iff, String.eqb_eq in H. now subst.
Qed.

(** After the substitution, [project] is the project id of the instance. *)
Lemma substitute_project_project (a m : option string) (qp : StorageQueryParameters)
    (supplied : QueryValue) :
  assoc "project" qp = Some supplied ->
  assoc "project" (substitute_project a m qp) = Some (QueryValue_of a).
Proof.
  intros H. unfold substitute_project. rewrite H.
  destruct (strict_ne supplied a) eqn:E; cbn [orb].
  - apply assoc_assign.
  - apply strict_ne_false in E. subst supplied.
    destruct (strict_ne (QueryValue_of a) m); [apply assoc_assign | exact H].
Qed.

(** The substitution keeps the names, their order, and the values of
    the other parameters. *)
Lemma substitute_project_keys (a m : option string) (qp : StorageQueryParameters) :
  map fst (substitute_project a m qp) = map fst qp.
Proof.
  unfold substitute_project. destruct (assoc "project" qp) eqn:H; [|reflexivity].
  destruct (_ || _); [|reflexivity]. apply keys_assign. now rewrite H.
Qed.

Lemma substitute_project_other (a m : option string) (qp : StorageQueryParameters)
    (k : string) :
  k <> "project" -> assoc k (substitute_project a m qp) = assoc k qp.
Proof.
  intros Hk. unfold substitute_project. destruct (assoc "project" qp); [|reflexivity].
  destruct (_ || _); [|reflexivity]. now apply assoc_assign_ne.
Qed.

Lemma searchParams_of_keys (qp : StorageQueryParameters) :
  map fst (searchParams_of qp) = map fst qp.
Proof. unfold searchParams_of. rewrite map_map. reflexivity. Qed.

Lemma assoc_searchParams_of (k : string) (qp : StorageQueryParameters) :
  assoc k (searchParams_of qp) = QueryValue_toString <$> assoc k qp.
Proof. apply assoc_map. Qed.

(** Where [#buildUrl] starts from. *)
Lemma locate_Ok (self : StorageTransport) (pathUri : string) (located : Url.URL) :
  locate env self pathUri = Ok located ->
  match URL_parse env pathUri with
  | Some absolute => located = absolute
  | None => URL_parse env (baseUrl self +:+ pathUri) = Some located
  end.
Proof.
  unfold locate, isValidUrl, new_URL.
  destruct (URL_parse env pathUri) as [absolute|]; [now intros [= <-]|].
  destruct (URL_parse env (baseUrl self +:+ pathUri)); [now intros [= <-] | discriminate].
Qed.

Lemma url_for_Ok (self : StorageTransport) (m : option string) (reqOpts : Req.t)
    (u : Url.URL) :
  url_for env self m reqOpts = Ok u ->
  exists located,
    locate env self (default "" (Url.toString <$> Req.url reqOpts)) = Ok located
    /\ u = Url.set_search located
             (serialize
                (searchParams_of
                   (substitute_project (projectId self) m
                      (default [] (Req.queryParameters reqOpts))))).
Proof.
  unfold url_for, cbind.
  destruct (locate env self _) as [located|]; [|discriminate].
  intros [= <-]. now exists located.
Qed.

(** C5, as amended. The URL of a dispatched request starts from
    [descriptor.url] if it parses as a URL and else from [descriptor.url]
    after the base URL; it keeps everything of that URL but the query.
    The query is replaced by the query parameters of the descriptor
    (after the substitution of [project]), serialized as
    [name=value] pairs joined by [&] in the order of the mapping; it is
    removed when there is no parameter.  The urlencoded parser reads the
    pairs back. *)
Theorem dispatched_url (self : StorageTransport) (reqOpts : Req.t)
    (callback : option StorageTransportCallback) (uuid : string) (w : World) :
  let r := call env self reqOpts callback uuid w in
  let pathUri := default "" (Url.toString <$> Req.url reqOpts) in
  let supplied := default [] (Req.queryParameters reqOpts) in
  Forall
    (fun ci =>
       exists located u params,
         Req.url ci.1 = Some (Url.UObject u)
         /\ match URL_parse env pathUri with
            | Some absolute => located = absolute
            | None => URL_parse env (baseUrl self +:+ pathUri) = Some located
            end
         /\ Url.url_prefix u = Url.url_prefix located
         /\ Url.url_fragment u = Url.url_fragment located
         /\ Url.url_query u
            = match params with
              | [] => None
              | _ => Some (join "&" (map serialize_pair params))
              end
         /\ parse (join "&" (map serialize_pair params)) = params
         /\ map fst params = map fst supplied
         /\ forall k, k <> "project" ->
              assoc k params = QueryValue_toString <$> assoc k supplied)
    (dispatched (events_since w r.2)).
Proof.
  intros r pathUri supplied. subst r. apply Forall_dispatched.
  intros h pid u _ _ Hu. cbn [fst].
  apply url_for_Ok in Hu as (located & Hloc & ->).
  apply locate_Ok in Hloc.
  destruct (resolved_instance_fields pid self) as (_ & _ & Hbase & _).
  rewrite Hbase in Hloc.
  set (qp' := substitute_project _ _ _).
  exists located, (Url.set_search located (serialize (searchParams_of qp'))),
    (searchParams_of qp').
  destruct (config_of_fields (resolved_instance pid self) reqOpts h
              (Url.set_search located (serialize (searchParams_of qp'))))
    as (_ & H2 & _).
  split; [exact H2|]. split; [exact Hloc|].
  split; [reflexivity|]. split; [reflexivity|].
  split; [apply set_search_serialize|].
  split; [apply parse_serialize|].
  split.
  - rewrite searchParams_of_keys. apply substitute_project_keys.
  - intros k Hk. rewrite assoc_searchParams_of. unfold qp'.
    now rewrite substitute_project_other.
Qed.

(** C2. When the query parameters of the descriptor have the reserved
    name [project], whatever value they give it, and the call resolves
    the project id [pid] (a non-empty string: the id of the descriptor, or
    else the one the auth client finds), the [project] parameter of the
    dispatched URL is [pid]. *)
Theorem project_substitution (self : StorageTransport) (reqOpts : Req.t)
    (callback : option StorageTransportCallback) (uuid : string) (w : World)
    (qp : StorageQueryParameters) (supplied : QueryValue) (pid : string) :
  Req.queryParameters reqOpts = Some qp ->
  assoc "project" qp = Some supplied ->
  resolution self reqOpts = Ok pid ->
  pid <> "" ->
  Forall
    (fun ci =>
       exists u, Req.url ci.1 = Some (Url.UObject u)
                 /\ Url.searchParams_get "project" u = Some pid)
    (dispatched (events_since w (call env self reqOpts callback uuid w).2)).
Proof.
  intros Hqp Hproject Hres Hpid. apply Forall_dispatched.
  intros h pid' u _ Hres' Hu. cbn [fst].
  assert (pid' = pid) as -> by congruence.
  apply url_for_Ok in Hu as (located & _ & ->).
  eexists. split; [apply config_of_fields|].
  rewrite searchParams_get_set_search, assoc_searchParams_of, Hqp. cbn [default from_option id].
  rewrite (substitute_project_project _ _ _ _ Hproject).
  destruct (resolved_instance_fields pid self) as (_ & _ & _ & _ & _ & ->).
  now rewrite (proj2 (truthy_Some pid) Hpid).
Qed.

End UrlConstruction.

(** The descriptor asks for [project=wrong-id],
    the auth client resolves [correct-id], one request is dispatched and
    its URL carries [project=correct-id]. *)
Lemma project_substitution_witness :
  Forall
    (fun ci =>
       exists u, Req.url ci.1 = Some (Url.UObject u)
                 /\ Url.searchParams_get "project" u = Some "correct-id")
    (dispatched
       (events_since Sample.world
          (call Sample.env Sample.transport Sample.listBuckets None "uuid"
             Sample.world).2))
  /\ length (dispatched
               (events_since Sample.world
                  (call Sample.env Sample.transport Sample.listBuckets None "uuid"
                     Sample.world).2)) = 1.
Proof.
  split; [|vm_compute; reflexivity].
  apply (project_substitution Sample.env Sample.transport Sample.listBuckets None "uuid"
           Sample.world
           [("maxResults", QNumber "10"); ("project", QString "wrong-id");
            ("prefix", QString "a b&c")]
           (QString "wrong-id") "correct-id").
  - reflexivity.
  - reflexivity.
  - reflexivity.
  - discriminate.
Defined.

(** C5, as stated, fails for a URL that carries a query of its own: the
    descriptor gives the absolute URL
    [https://storage.googleapis.com/storage/v1/b?project=other] and no
    query parameters; the URL parses, with the query [project=other], and
    the request is dispatched to
    [https://storage.googleapis.com/storage/v1/b]. *)
Lemma absolute_url_not_verbatim :
  let given := "https://storage.googleapis.com/storage/v1/b?project=other" in
  let r := call Sample.env Sample.transport Sample.absolute None "uuid" Sample.world in
  Req.url Sample.absolute = Some (Url.UString given)
  /\ (Url.url_query <$> URL_parse Sample.env given) = Some (Some "project=other")
  /\ map (fun ci => Url.toString <$> Req.url ci.1)
       (dispatched (events_since Sample.world r.2))
     = [Some "https://storage.googleapis.com/storage/v1/b"]
  /\ ~ Forall
        (fun ci => Req.url ci.1 = Url.UObject <$> URL_parse Sample.env given)
        (dispatched (events_since Sample.world r.2)).
Proof.
  cbv zeta.
  assert (H : map (fun ci => Url.toString <$> Req.url ci.1)
                (dispatched
                   (events_since Sample.world
                      (call Sample.env Sample.transport Sample.absolute None "uuid"
                         Sample.world).2))
              = [Some "https://storage.googleapis.com/storage/v1/b"])
    by (vm_compute; reflexivity).
  split; [reflexivity|]. split; [vm_compute; reflexivity|]. split; [exact H|].
  intros HF. destruct (dispatched _) as [|ci l]; [discriminate H|].
  apply Forall_cons in HF as [HF _]. injection H as H _.
  rewrite HF in H. vm_compute in H. discriminate H.
Qed.

(** ** The dispatched headers *)

Section HeaderAssembly.

Variable env : Env.

Import Fetch FetchFacts.

Lemma trackingString_not_blank (uuid : string) : blank (trackingString env uuid) = false.
Proof.
  unfold trackingString. rewrite blank_app. apply andb_false_iff. now right.
Qed.

Lemma getUserAgentString_not_blank (self : StorageTransport) :
  blank (util_getUserAgentString env) = false ->
  blank (getUserAgentString env self) = false.
Proof.
  intros H. unfold getUserAgentString.
  destruct (truthy (providedUserAgent self)); [|exact H].
  rewrite !blank_app, H. now rewrite !andb_false_r.
Qed.

Lemma normalize_not_empty (s : string) : blank s = false -> normalize s <> "".
Proof. intros H E. apply normalize_blank in E. congruence. Qed.

(** A suffix that starts after a non-blank byte is appended to a
    normalised value as it is, but for its trailing whitespace. *)
Lemma normalize_append (s : string) (mid : string) (c : ascii) (tail : string) :
  blank s = false -> is_http_ws c = false ->
  normalize (normalize s +:+ mid +:+ String c tail)
  = normalize s +:+ mid +:+ String c (rstrip tail).
Proof.
  intros Hs Hc.
  destruct (normalize s) as [|x r] eqn:E; [now apply normalize_not_empty in E|].
  pose proof (normalize_head _ _ _ E) as Hx.
  unfold normalize at 1. cbn [String.append lstrip]. rewrite Hx.
  change (String x (r +:+ mid +:+ String c tail))
    with (String x r +:+ mid +:+ String c tail).
  rewrite <- append_assoc, rstrip_after by exact Hc.
  now rewrite append_assoc.
Qed.

(** The headers [#buildRequestHeaders] returns. *)
Lemma buildRequestHeaders_Ok (self : StorageTransport) (uuid : string)
    (init : option HeadersInit) (h : Headers) :
  buildRequestHeaders env self uuid init = Ok h ->
  exists h0,
    new_Headers (default (HRecord []) init) = Ok h0
    /\ hget "User-Agent" h = Some (normalize (getUserAgentString env self))
    /\ hget "x-goog-api-client" h = Some (normalize (trackingString env uuid))
    /\ forall n, lower n <> "user-agent" -> lower n <> "x-goog-api-client" ->
         hget n h = hget n h0.
Proof.
  unfold buildRequestHeaders, cbind.
  destruct (new_Headers _) as [h0|] eqn:H0; [|discriminate].
  destruct (hset h0 "User-Agent" _) as [h1|] eqn:H1; [|discriminate].
  intros H2. exists h0. split; [reflexivity|]. split; [|split].
  - rewrite (hget_hset_other _ _ "User-Agent" _ _ H2) by discriminate.
    apply (hget_hset _ _ _ _ H1).
  - apply (hget_hset _ _ _ _ H2).
  - intros n Hua Hxg.
    rewrite (hget_hset_other _ _ n _ _ H2) by exact Hxg.
    apply (hget_hset_other _ _ n _ _ H1). exact Hua.
Qed.

(** The headers assembled at the head of [makeRequest]. *)
Lemma assembleHeaders_Ok (self : StorageTransport) (uuid : string) (reqOpts : Req.t)
    (h : Headers) :
  assembleHeaders env self uuid reqOpts = Ok h ->
  exists h0,
    new_Headers (default (HRecord []) (Req.headers reqOpts)) = Ok h0
    /\ hget "User-Agent" h = Some (normalize (getUserAgentString env self))
    /\ hget "x-goog-api-client" h
       = Some (if truthy (Req.GCCL_GCS_CMD_KEY reqOpts)
               then normalize (trackingString env uuid) +:+ " gccl-gcs-cmd/"
                    +:+ rstrip (default "" (Req.GCCL_GCS_CMD_KEY reqOpts))
               else normalize (trackingString env uuid))
    /\ forall n, lower n <> "user-agent" -> lower n <> "x-goog-api-client" ->
         hget n h = hget n h0.
Proof.
  unfold assembleHeaders, cbind.
  destruct (buildRequestHeaders env self uuid (Req.headers reqOpts)) as [hb|] eqn:Hb;
    [|discriminate].
  apply buildRequestHeaders_Ok in Hb as (h0 & H0 & Hua & Hxg & Hother).
  destruct (truthy (Req.GCCL_GCS_CMD_KEY reqOpts)).
  - rewrite Hxg. cbn [default from_option id]. intros Hset. exists h0.
    split; [exact H0|]. split; [|split].
    + rewrite (hget_hset_other _ _ "User-Agent" _ _ Hset) by discriminate. exact Hua.
    + rewrite (hget_hset _ _ _ _ Hset). f_equal.
      apply (normalize_append _ " gccl-gcs-cmd" "/");
        [apply trackingString_not_blank | reflexivity].
    + intros n Hn1 Hn2. rewrite (hget_hset_other _ _ n _ _ Hset) by exact Hn2.
      now apply Hother.
  - intros [= <-]. exists h0. auto.
Qed.

(** C3, as amended. A call dispatches one request when its headers
    assemble, its project id resolves and its URL parses, and none
    otherwise.  The headers of the request hold [User-Agent], with the
    value the transport computes (the provided user agent, if it is
    configured, then a space, then the default of ./util), and the
    tracking header [x-goog-api-client]; both are non-empty, the former
    provided the default of ./util is not blank.  Under every other name
    they hold what the descriptor supplied under that name in any letter
    case, as [Headers] keeps it: each value without the whitespace around
    it, the values of one name joined by a comma and a space; and nothing
    if the descriptor supplied no headers. *)
Theorem header_composition (self : StorageTransport) (reqOpts : Req.t)
    (callback : option StorageTransportCallback) (uuid : string) (w : World) :
  blank (util_getUserAgentString env) = false ->
  let evs := events_since w (call env self reqOpts callback uuid w).2 in
  let pathUri := default "" (Url.toString <$> Req.url reqOpts) in
  length (dispatched evs)
  = (if is_Ok (assembleHeaders env self uuid reqOpts)
        && (truthy (Req.projectId reqOpts) || is_Ok (getProjectId (authClient self)))
        && (isValidUrl env pathUri || isValidUrl env (baseUrl self +:+ pathUri))
     then 1 else 0)
  /\ Forall
       (fun ci =>
          exists h userAgent tracking,
            Req.headers ci.1 = Some (HObject h)
            /\ hget "User-Agent" h = Some userAgent
            /\ userAgent
               = normalize
                   (if truthy (providedUserAgent self)
                    then default "" (providedUserAgent self) +:+ " "
                         +:+ util_getUserAgentString env
                    else util_getUserAgentString env)
            /\ userAgent <> ""
            /\ hget "x-goog-api-client" h = Some tracking
            /\ tracking <> ""
            /\ forall n, lower n <> "user-agent" -> lower n <> "x-goog-api-client" ->
                 hget n h
                 = match default (HRecord []) (Req.headers reqOpts) with
                   | HRecord entries =>
                       match named n entries with
                       | [] => None
                       | l => Some (join ", " (map (fun kv => normalize kv.2) l))
                       end
                   | HObject supplied => hget n supplied
                   end)
       (dispatched evs).
Proof.
  intros Hdefault evs pathUri. subst evs pathUri. split; [apply call_dispatch_count|].
  apply Forall_dispatched. intros h pid u Hh _ _. cbn [fst].
  apply assembleHeaders_Ok in Hh as (h0 & H0 & Hua & Hxg & Hother).
  exists h. eexists. eexists.
  split; [apply config_of_fields|].
  split; [exact Hua|]. split; [reflexivity|].
  split; [apply normalize_not_empty, getUserAgentString_not_blank, Hdefault|].
  split; [exact Hxg|]. split.
  - destruct (truthy (Req.GCCL_GCS_CMD_KEY reqOpts)).
    + intros E. pose proof (normalize_not_empty _ (trackingString_not_blank uuid)) as Hne.
      destruct (normalize (trackingString env uuid)); [congruence | discriminate E].
    + apply normalize_not_empty, trackingString_not_blank.
  - intros n Hn1 Hn2. rewrite (Hother n Hn1 Hn2).
    apply (hget_new_Headers n _ _ H0).
Qed.

(** C9, as amended. A call dispatches one request when its headers
    assemble (a command tag that is no header value makes the assembly
    throw), its project id resolves and its URL parses, and none
    otherwise.  The tracking header of the request is the tracking string
    the transport computes, as a header value; when the descriptor carries
    a command tag (a non-empty string), [ gccl-gcs-cmd/] and the tag, less
    the whitespace at its end, come after it; when it carries none, the
    tracking string stands alone. *)
Theorem command_tag_appended (self : StorageTransport) (reqOpts : Req.t)
    (callback : option StorageTransportCallback) (uuid : string) (w : World) :
  let tracking := normalize (trackingString env uuid) in
  let evs := events_since w (call env self reqOpts callback uuid w).2 in
  let pathUri := default "" (Url.toString <$> Req.url reqOpts) in
  length (dispatched evs)
  = (if is_Ok (assembleHeaders env self uuid reqOpts)
        && (truthy (Req.projectId reqOpts) || is_Ok (getProjectId (authClient self)))
        && (isValidUrl env pathUri || isValidUrl env (baseUrl self +:+ pathUri))
     then 1 else 0)
  /\ Forall
       (fun ci =>
          exists h,
            Req.headers ci.1 = Some (HObject h)
            /\ hget "x-goog-api-client" h
               = Some (match Req.GCCL_GCS_CMD_KEY reqOpts with
                       | Some (String c tag) =>
                           tracking +:+ " gccl-gcs-cmd/" +:+ rstrip (String c tag)
                       | _ => tracking
                       end))
       (dispatched evs).
Proof.
  intros tracking evs pathUri. subst evs pathUri. split; [apply call_dispatch_count|].
  apply Forall_dispatched. intros h pid u Hh _ _. cbn [fst].
  apply assembleHeaders_Ok in Hh as (h0 & _ & _ & Hxg & _).
  exists h. split; [apply config_of_fields|]. rewrite Hxg.
  now destruct (Req.GCCL_GCS_CMD_KEY reqOpts) as [[|c tag]|].
Qed.

(** A tag that does not end with whitespace is appended as it is. *)
Lemma rstrip_no_trailing (a : string) (c : ascii) :
  is_http_ws c = false -> rstrip (a +:+ String c "") = a +:+ String c "".
Proof. intros Hc. now rewrite rstrip_after. Qed.

End HeaderAssembly.

(** The default user agent of the sample environment is not blank: the
    sample listing is dispatched, once, with the three headers. *)
Lemma header_composition_witness :
  let evs := events_since Sample.world
               (call Sample.env Sample.transport Sample.listBuckets None "uuid"
                  Sample.world).2 in
  length (dispatched evs) = 1
  /\ Forall
       (fun ci =>
          exists h,
            Req.headers ci.1 = Some (Fetch.HObject h)
            /\ Fetch.hget "User-Agent" h = Some "retry-test gcloud-node-storage/7.16.0"
            /\ (exists tracking,
                  Fetch.hget "x-goog-api-client" h = Some tracking /\ tracking <> "")
            /\ Fetch.hget "Content-Type" h = Some "application/json"
            /\ Fetch.hget "Accept" h = None)
       (dispatched evs).
Proof.
  destruct (header_composition Sample.env Sample.transport Sample.listBuckets None "uuid"
              Sample.world eq_refl) as (Hn & HF).
  split; [exact Hn|].
  eapply Forall_impl; [exact HF|].
  intros ci (h & userAgent & tracking & Hh & Hua & -> & _ & Hxg & Hne & Hother).
  exists h. split; [exact Hh|]. split; [exact Hua|]. split; [eauto|].
  split; [apply (Hother "Content-Type") | apply (Hother "Accept")]; discriminate.
Defined.

(** C3, as stated, fails for a header value with whitespace around it:
    the descriptor supplies [X-Custom] with the value [ padded ], and
    the one request of the call carries [padded] under that name. *)
Lemma caller_header_value_trimmed :
  let reqOpts := Sample.descriptor "GET" "retry_test/abc" [("X-Custom", " padded ")] None in
  let evs := events_since Sample.world
               (call Sample.env Sample.transport reqOpts None "uuid" Sample.world).2 in
  Req.headers reqOpts = Some (Fetch.HRecord [("X-Custom", " padded ")])
  /\ map (fun ci => Req.headers ci.1) (dispatched evs)
     = [Some (Fetch.HObject
                [("x-custom", "padded");
                 ("user-agent", "retry-test gcloud-node-storage/7.16.0");
                 ("x-goog-api-client",
                  "gl-node/20.11.0 gccl/7.16.0-CJS gccl-invocation-id/uuid")])]
  /\ ~ Forall
        (fun ci =>
           exists h,
             Req.headers ci.1 = Some (Fetch.HObject h)
             /\ Fetch.hget "X-Custom" h = Some " padded ")
        (dispatched evs).
Proof.
  cbv zeta.
  assert (H : map (fun ci => Req.headers ci.1)
                (dispatched
                   (events_since Sample.world
                      (call Sample.env Sample.transport
                         (Sample.descriptor "GET" "retry_test/abc"
                            [("X-Custom", " padded ")] None)
                         None "uuid" Sample.world).2))
              = [Some (Fetch.HObject
                         [("x-custom", "padded");
                          ("user-agent", "retry-test gcloud-node-storage/7.16.0");
                          ("x-goog-api-client",
                           "gl-node/20.11.0 gccl/7.16.0-CJS gccl-invocation-id/uuid")])])
    by (vm_compute; reflexivity).
  split; [reflexivity|]. split; [exact H|].
  intros HF. destruct (dispatched _) as [|ci l]; [discriminate H|].
  apply Forall_cons in HF as [(h & Hh & Hget) _]. injection H as H _.
  rewrite H in Hh. injection Hh as <-. vm_compute in Hget. discriminate Hget.
Qed.

Lemma header_composition_sample :
  map (fun ci => Req.headers ci.1)
    (dispatched
       (events_since Sample.world
          (call Sample.env Sample.transport Sample.taggedList None "uuid"
             Sample.world).2))
  = [Some (Fetch.HObject
             [("content-type", "application/json");
              ("user-agent", "retry-test gcloud-node-storage/7.16.0");
              ("x-goog-api-client",
               "gl-node/20.11.0 gccl/7.16.0-CJS gccl-invocation-id/uuid gccl-gcs-cmd/storage.buckets.list")])].
Proof. vm_compute. reflexivity. Qed.

(** ** The interceptors of the request engine *)

Section Interceptors.

Variable env : Env.










End Interceptors.


(** ** The cached project id *)

Section ProjectCache.

Variable env : Env.

Lemma is_Ok_inv {A} (c : Completion A) : is_Ok c = true -> exists a, c = Ok a.
Proof. destruct c as [a|]; [eauto | discriminate]. Qed.

Lemma lookup_events_In (reqOpts : Req.t) :
  In EvGetProjectId (lookup_events reqOpts) <-> truthy (Req.projectId reqOpts) = false.
Proof.
  unfold lookup_events. destruct (truthy (Req.projectId reqOpts)); cbn; intuition congruence.
Qed.

Lemma on_error_events_no_lookup (callback : option StorageTransportCallback) (e : GaxiosError) :
  ~ In EvGetProjectId (on_error_events callback e).
Proof. destruct callback; cbn; [intros [H|[]]; discriminate H | tauto]. Qed.

Lemma settle_events_no_lookup (callback : option StorageTransportCallback)
    (p : Completion GaxiosResponse) :
  ~ In EvGetProjectId (settle_events callback p).
Proof.
  destruct callback as [cb|], p as [resp|err]; cbn; try tauto.
  - destruct (cb (args_success resp)); cbn; intuition discriminate.
  - intuition discriminate.
Qed.

(** A call looks the project id up exactly when its headers assemble
    and its descriptor carries no (truthy) project id. *)
Lemma lookup_performed (self : StorageTransport) (reqOpts : Req.t)
    (callback : option StorageTransportCallback) (uuid : string) (w : World) :
  In EvGetProjectId (events_since w (call env self reqOpts callback uuid w).2)
  <-> is_Ok (assembleHeaders env self uuid reqOpts) = true
      /\ truthy (Req.projectId reqOpts) = false.
Proof.
  rewrite call_events.
  destruct (assembleHeaders env self uuid reqOpts) as [h|]; cbn [is_Ok];
    [|cbn; intuition discriminate].
  rewrite <- lookup_events_In.
  destruct (resolution self reqOpts) as [pid|e].
  - cbn zeta. destruct (url_for env _ _ _) as [u|e]; rewrite in_app_iff.
    + cbn [In]. pose proof (settle_events_no_lookup callback
                              (request (authClient self)
                                 (config_of (resolved_instance pid self) reqOpts h u))).
      intuition discriminate.
    + pose proof (on_error_events_no_lookup callback e). tauto.
  - rewrite in_app_iff. pose proof (on_error_events_no_lookup callback e). tauto.
Qed.

(** C4, as amended. Take a call whose descriptor carries a project id (a
    non-empty string) and, after it, a call on any transport whose
    descriptor carries none, both with headers that assemble.  The first
    call writes its id over the variable of module scope, and in its
    instance.  The second looks the id up with the auth client of its
    transport, whatever the variable holds.  When the lookup yields an
    id, the second call leaves it in the variable.  If that id is not
    empty, it is also left in the instance, and it is the [project]
    parameter of the request when the descriptor has one.  If it is the
    empty string, the instance keeps the project id it had, and that one
    is the [project] parameter: on the transport of the first call, it is
    the id the first call carried. *)
Theorem explicit_project_then_lookup
    (selfA selfB : StorageTransport) (reqA reqB : Req.t)
    (callbackA callbackB : option StorageTransportCallback) (uuidA uuidB : string)
    (w : World) (explicit found : string) :
  Req.projectId reqA = Some explicit -> explicit <> "" ->
  is_Ok (assembleHeaders env selfA uuidA reqA) = true ->
  truthy (Req.projectId reqB) = false ->
  is_Ok (assembleHeaders env selfB uuidB reqB) = true ->
  getProjectId (authClient selfB) = Ok found ->
  let a := call env selfA reqA callbackA uuidA w in
  let b := call env selfB reqB callbackB uuidB (after a) in
  let held := if String.eqb found "" then projectId selfB else Some found in
  module_projectId (after a) = Some explicit
  /\ projectId (this a.2) = Some explicit
  /\ In EvGetProjectId (events_since (after a) b.2)
  /\ module_projectId (after b) = Some found
  /\ projectId (this b.2) = held
  /\ (forall qp supplied,
        Req.queryParameters reqB = Some qp ->
        FormUrlencoded.assoc "project" qp = Some supplied ->
        Forall
          (fun ci =>
             exists u,
               Req.url ci.1 = Some (Url.UObject u)
               /\ Url.searchParams_get "project" u = Some (default "undefined" held))
          (dispatched (events_since (after a) b.2)))
  /\ (selfB = this a.2 -> found = "" -> held = Some explicit).
Proof.
  intros HA Hexplicit HhA HB HhB Hfound a b held. subst a b held. unfold after.
  assert (HresA : resolution selfA reqA = Ok explicit).
  { unfold resolution. rewrite HA. cbn [default from_option id].
    now rewrite (proj2 (truthy_Some explicit) Hexplicit). }
  assert (HresB : resolution selfB reqB = Ok found).
  { unfold resolution. now rewrite HB. }
  apply is_Ok_inv in HhA as (hA & HhA).
  pose proof HhB as HhB'. apply is_Ok_inv in HhB' as (hB & HhB').
  assert (HthisA : projectId
                     (this (call env selfA reqA callbackA uuidA w).2) = Some explicit).
  { rewrite call_this, HhA, HresA. unfold resolved_instance.
    now rewrite (proj2 (truthy_Some explicit) Hexplicit). }
  assert (Hheld : projectId (resolved_instance found selfB)
                  = if String.eqb found "" then projectId selfB else Some found).
  { unfold resolved_instance, truthy. now destruct (String.eqb found ""). }
  split; [now rewrite call_module_projectId, HhA, HresA|].
  split; [exact HthisA|].
  split; [apply lookup_performed; now split|].
  split; [now rewrite call_module_projectId, HhB', HresB|].
  split; [now rewrite call_this, HhB', HresB|].
  split.
  - intros qp supplied Hqp Hproject. apply Forall_dispatched.
    intros h pid u _ Hres Hu. cbn [fst].
    assert (pid = found) as -> by congruence.
    apply url_for_Ok in Hu as (located & _ & ->).
    eexists. split; [apply config_of_fields|].
    rewrite UrlFacts.searchParams_get_set_search, assoc_searchParams_of, Hqp.
    cbn [default from_option id].
    rewrite (substitute_project_project _ _ _ _ Hproject), Hheld.
    now destruct (if String.eqb found "" then projectId selfB else Some found).
  - intros -> ->. cbn [String.eqb]. exact HthisA.
Qed.

End ProjectCache.

(** C4, as stated, fails: the variable of module scope holds the id the
    auth client found, [correct-id]; a call whose descriptor carries the
    project id [override] leaves [override] in it. *)
Lemma explicit_project_overwrites_cache :
  let r := call Sample.env Sample.transport Sample.overriding None "uuid-2"
             Sample.worldAfterListing in
  getProjectId (authClient Sample.transport) = Ok "correct-id"
  /\ module_projectId Sample.worldAfterListing = Some "correct-id"
  /\ Req.projectId Sample.overriding = Some "override"
  /\ module_projectId (after r) = Some "override"
  /\ module_projectId (after r) <> Some "correct-id".
Proof.
  cbv zeta.
  assert (H : module_projectId
                (after (call Sample.env Sample.transport Sample.overriding None "uuid-2"
                          Sample.worldAfterListing)) = Some "override")
    by (vm_compute; reflexivity).
  split; [reflexivity|]. split; [vm_compute; reflexivity|]. split; [reflexivity|].
  split; [exact H|]. rewrite H. discriminate.
Qed.

(** After the override, the sample request, which carries no project
    id, resolves [correct-id] again.  With an auth client whose lookup
    yields the empty string, the override stays in the instance, and the
    listing that follows on the same transport is requested, once, with
    [project=override]. *)
Lemma explicit_project_then_lookup_witness :
  (let a := call Sample.env Sample.transport Sample.overriding None "uuid-2"
              Sample.worldAfterListing in
   let b := call Sample.env Sample.transport Sample.getRetryTest None "uuid-3" (after a) in
   module_projectId (after a) = Some "override"
   /\ projectId (this a.2) = Some "override"
   /\ In EvGetProjectId (events_since (after a) b.2)
   /\ module_projectId (after b) = Some "correct-id"
   /\ projectId (this b.2) = Some "correct-id")
  /\ (let a := call Sample.env SampleMore.transportWithEmptyProject Sample.overriding None
                 "uuid-2" Sample.world in
      let b := call Sample.env (this a.2) Sample.listBuckets None "uuid-3" (after a) in
      projectId (this a.2) = Some "override"
      /\ In EvGetProjectId (events_since (after a) b.2)
      /\ module_projectId (after b) = Some ""
      /\ projectId (this b.2) = Some "override"
      /\ length (dispatched (events_since (after a) b.2)) = 1
      /\ Forall
           (fun ci =>
              exists u,
                Req.url ci.1 = Some (Url.UObject u)
                /\ Url.searchParams_get "project" u = Some "override")
           (dispatched (events_since (after a) b.2))).
Proof.
  split.
  - destruct (explicit_project_then_lookup Sample.env Sample.transport Sample.transport
                Sample.overriding Sample.getRetryTest None None "uuid-2" "uuid-3"
                Sample.worldAfterListing "override" "correct-id")
      as (H1 & H2 & H3 & H4 & H5 & _).
    + reflexivity.
    + discriminate.
    + vm_compute. reflexivity.
    + reflexivity.
    + vm_compute. reflexivity.
    + reflexivity.
    + cbv zeta. repeat split; assumption.
  - destruct (explicit_project_then_lookup Sample.env SampleMore.transportWithEmptyProject
                (this (call Sample.env SampleMore.transportWithEmptyProject
                         Sample.overriding None "uuid-2" Sample.world).2)
                Sample.overriding Sample.listBuckets None None "uuid-2" "uuid-3"
                Sample.world "override" "")
      as (_ & H2 & H3 & H4 & H5 & H6 & H7).
    + reflexivity.
    + discriminate.
    + vm_compute. reflexivity.
    + reflexivity.
    + vm_compute. reflexivity.
    + reflexivity.
    + cbv zeta. cbv zeta in H5, H6, H7.
      specialize (H7 eq_refl eq_refl). rewrite H7 in H5, H6.
      split; [exact H2|]. split; [exact H3|]. split; [exact H4|]. split; [exact H5|].
      split; [vm_compute; reflexivity|].
      exact (H6 _ (QString "wrong-id") eq_refl eq_refl).
Defined.

(** ** Failures and the two calling conventions *)

Section Outcome.

Variable env : Env.

Lemma callbacks_on_error_events (callback : option StorageTransportCallback) (e : GaxiosError) :
  callbacks (on_error_events callback e)
  = match callback with Some _ => [args_error_only e] | None => [] end.
Proof. now destruct callback. Qed.

Lemma callbacks_settle_events_None (p : Completion GaxiosResponse) :
  callbacks (settle_events None p) = [].
Proof. now destruct p. Qed.

(** The two failures before the dispatch. *)
Lemma resolution_Throw (self : StorageTransport) (reqOpts : Req.t) (e : GaxiosError) :
  resolution self reqOpts = Throw e -> getProjectId (authClient self) = Throw e.
Proof.
  unfold resolution. destruct (truthy (Req.projectId reqOpts)); [discriminate | auto].
Qed.

Lemma url_for_Throw (self : StorageTransport) (m : option string) (reqOpts : Req.t)
    (e : GaxiosError) :
  url_for env self m reqOpts = Throw e -> e = TypeError "Invalid URL".
Proof.
  unfold url_for, cbind, locate, isValidUrl, new_URL.
  destruct (URL_parse env _); [discriminate|].
  destruct (URL_parse env _); [discriminate|]. now intros [= <-].
Qed.

(** C7. When a call looks the project id up and the lookup fails with
    [e], no request is handed to the request engine; with a callback, the
    callback is invoked once, with [e] (the promise is then resolved, or
    rejected with what the callback throws); without one, the promise is
    rejected with [e]. *)
Theorem lookup_failure_surfaced (self : StorageTransport) (reqOpts : Req.t)
    (callback : option StorageTransportCallback) (uuid : string) (w : World)
    (e : GaxiosError) :
  let r := call env self reqOpts callback uuid w in
  In EvGetProjectId (events_since w r.2) ->
  getProjectId (authClient self) = Throw e ->
  dispatched (events_since w r.2) = []
  /\ match callback with
     | Some callback =>
         events_since w r.2 = [EvGetProjectId; EvCallback (args_error_only e)]
         /\ cb_err (args_error_only e) = Value e
         /\ r.1 = match callback (args_error_only e) with
                  | None => Ok None
                  | Some thrown => Throw thrown
                  end
     | None => events_since w r.2 = [EvGetProjectId] /\ r.1 = Throw e
     end.
Proof.
  intros r Hlookup He. subst r.
  apply lookup_performed in Hlookup as (Hh & Hexplicit).
  apply is_Ok_inv in Hh as (h & Hh).
  assert (Hres : resolution self reqOpts = Throw e).
  { unfold resolution. now rewrite Hexplicit. }
  rewrite call_dispatched, call_events, call_result, Hh, Hres.
  unfold lookup_events. rewrite Hexplicit.
  split; [reflexivity|]. destruct callback as [cb|]; cbn; auto.
Qed.

(** C1, as amended. Take a call whose headers assemble and whose
    callback, if there is one, returns when it is invoked.  With a
    callback, the promise is resolved (with [undefined]) and the callback
    is invoked exactly once: with [(null, data, response)] when the
    request was dispatched and succeeded, with
    [(error, null, error.response)] when it was dispatched and failed, and
    with the error alone when the call failed before the dispatch.
    Without a callback, nothing is invoked and the promise is resolved
    with the data, or rejected with the error of the request, of the
    lookup of the project id, or of the construction of the URL. *)
Theorem outcome_normalization (self : StorageTransport) (reqOpts : Req.t)
    (callback : option StorageTransportCallback) (uuid : string) (w : World) :
  let r := call env self reqOpts callback uuid w in
  let evs := events_since w r.2 in
  is_Ok (assembleHeaders env self uuid reqOpts) = true ->
  (forall f args, callback = Some f -> f args = None) ->
  match callback, dispatched evs with
  | Some _, [] =>
      r.1 = Ok None
      /\ exists e, callbacks evs = [args_error_only e]
                   /\ (getProjectId (authClient self) = Throw e
                       \/ e = TypeError "Invalid URL")
  | Some _, (config, _) :: _ =>
      r.1 = Ok None
      /\ match request (authClient self) config with
         | Ok resp => callbacks evs = [args_success resp]
         | Throw err => callbacks evs = [args_failure err]
         end
  | None, [] =>
      callbacks evs = []
      /\ exists e, r.1 = Throw e
                   /\ (getProjectId (authClient self) = Throw e
                       \/ e = TypeError "Invalid URL")
  | None, (config, _) :: _ =>
      callbacks evs = []
      /\ match request (authClient self) config with
         | Ok resp => r.1 = Ok (Some (resp_data resp))
         | Throw err => r.1 = Throw err
         end
  end.
Proof.
  intros r evs Hh Hquiet. subst evs r.
  apply is_Ok_inv in Hh as (h & Hh).
  rewrite call_dispatched, call_events, call_result, Hh.
  destruct (resolution self reqOpts) as [pid|e] eqn:Hres.
  - cbn zeta.
    destruct (url_for env (resolved_instance pid self) (Some pid) reqOpts) as [u|e] eqn:Hu.
    + rewrite callbacks_app, callbacks_lookup_events. cbn [app callbacks].
      set (config := config_of (resolved_instance pid self) reqOpts h u).
      destruct callback as [f|].
      * destruct (request (authClient self) config) as [resp|err]; cbn.
        -- rewrite (Hquiet f (args_success resp) eq_refl). now split.
        -- rewrite (Hquiet f (args_failure err) eq_refl). now split.
      * rewrite callbacks_settle_events_None.
        destruct (request (authClient self) config); now split.
    + rewrite callbacks_app, callbacks_lookup_events, callbacks_on_error_events.
      apply url_for_Throw in Hu.
      destruct callback as [f|]; cbn.
      * rewrite (Hquiet f (args_error_only e) eq_refl). split; [reflexivity|]. eauto.
      * split; [reflexivity|]. eauto.
  - rewrite callbacks_app, callbacks_lookup_events, callbacks_on_error_events.
    apply resolution_Throw in Hres.
    destruct callback as [f|]; cbn.
    + rewrite (Hquiet f (args_error_only e) eq_refl). split; [reflexivity|]. eauto.
    + split; [reflexivity|]. eauto.
Qed.

End Outcome.

(** The auth client finds no project: the callback receives the error
    of the lookup and nothing is dispatched; without a callback the
    promise is rejected with it. *)
Lemma lookup_failure_surfaced_witness :
  (let r := call Sample.env Sample.transportWithoutProject Sample.getRetryTest
              (Some Sample.quiet) "uuid" Sample.world in
   dispatched (events_since Sample.world r.2) = []
   /\ events_since Sample.world r.2
      = [EvGetProjectId; EvCallback (args_error_only Sample.noProject)]
   /\ r.1 = Ok None)
  /\ (let r := call Sample.env Sample.transportWithoutProject Sample.getRetryTest
                 None "uuid" Sample.world in
      dispatched (events_since Sample.world r.2) = []
      /\ r.1 = Throw Sample.noProject).
Proof.
  split.
  - destruct (lookup_failure_surfaced Sample.env Sample.transportWithoutProject
                Sample.getRetryTest (Some Sample.quiet) "uuid" Sample.world
                Sample.noProject) as (Hd & He & _ & Hr).
    + vm_compute. left. reflexivity.
    + reflexivity.
    + cbv zeta. split; [exact Hd|]. split; [exact He | exact Hr].
  - destruct (lookup_failure_surfaced Sample.env Sample.transportWithoutProject
                Sample.getRetryTest None "uuid" Sample.world Sample.noProject)
      as (Hd & _ & Hr).
    + vm_compute. left. reflexivity.
    + reflexivity.
    + cbv zeta. split; [exact Hd | exact Hr].
Defined.

(** C1, as stated, fails for a failure before the dispatch: the lookup
    of the project id fails, the callback is invoked with the error
    alone, [callback(e)], and not with [callback(e, null, e.response)]:
    its second argument is [undefined], not [null]. *)
Lemma failure_before_dispatch_passes_error_alone :
  let r := call Sample.env Sample.transportWithoutProject Sample.getRetryTest
             (Some Sample.quiet) "uuid" Sample.world in
  getProjectId (authClient Sample.transportWithoutProject) = Throw Sample.noProject
  /\ callbacks (events_since Sample.world r.2) = [args_error_only Sample.noProject]
  /\ cb_data (args_error_only Sample.noProject) = Undefined
  /\ cb_data (args_failure Sample.noProject) = Null
  /\ callbacks (events_since Sample.world r.2) <> [args_failure Sample.noProject].
Proof.
  cbv zeta.
  assert (H : callbacks
                (events_since Sample.world
                   (call Sample.env Sample.transportWithoutProject Sample.getRetryTest
                      (Some Sample.quiet) "uuid" Sample.world).2)
              = [args_error_only Sample.noProject]) by (vm_compute; reflexivity).
  split; [reflexivity|]. split; [exact H|]. split; [reflexivity|]. split; [reflexivity|].
  rewrite H. discriminate.
Qed.

(** The sample listing, with a callback and without: the callback is
    invoked once with the response and the promise is resolved; the
    promise alone is resolved with the data.  With an auth client that
    refuses the request, the callback is invoked once with the error and
    its response. *)
Lemma outcome_normalization_witness :
  (let r := call Sample.env Sample.transport Sample.listBuckets (Some Sample.quiet)
              "uuid" Sample.world in
   r.1 = Ok None
   /\ callbacks (events_since Sample.world r.2)
      = [args_success (Sample.response "{kind: storage#bucket}")])
  /\ (let r := call Sample.env Sample.transport Sample.listBuckets None "uuid"
                 Sample.world in
      callbacks (events_since Sample.world r.2) = []
      /\ r.1 = Ok (Some "{kind: storage#bucket}"))
  /\ (let r := call Sample.env
                 (set_projectId "my-project-id" Sample.transportWithoutProject)
                 (Req.spread (Sample.forProject "my-project-id") Sample.listBuckets)
                 (Some Sample.quiet) "uuid" Sample.world in
      r.1 = Ok None
      /\ callbacks (events_since Sample.world r.2) = [args_failure Sample.notFound]).
Proof.
  split; [|split].
  - pose proof (outcome_normalization Sample.env Sample.transport Sample.listBuckets
                  (Some Sample.quiet) "uuid" Sample.world) as H.
    cbv zeta in H. specialize (H ltac:(vm_compute; reflexivity)).
    specialize (H ltac:(intros f args [= <-]; reflexivity)).
    destruct (dispatched _) as [|[config i] l] eqn:E; [vm_compute in E; discriminate E|].
    destruct H as (Hr & Hc). cbv zeta. split; [exact Hr|].
    change (request (authClient Sample.transport) config)
      with (@Ok GaxiosResponse (Sample.response "{kind: storage#bucket}")) in Hc.
    exact Hc.
  - pose proof (outcome_normalization Sample.env Sample.transport Sample.listBuckets
                  None "uuid" Sample.world) as H.
    cbv zeta in H. specialize (H ltac:(vm_compute; reflexivity)).
    specialize (H ltac:(intros f args [=])).
    destruct (dispatched _) as [|[config i] l] eqn:E; [vm_compute in E; discriminate E|].
    destruct H as (Hc & Hr). cbv zeta. split; [exact Hc|].
    change (request (authClient Sample.transport) config)
      with (@Ok GaxiosResponse (Sample.response "{kind: storage#bucket}")) in Hr.
    exact Hr.
  - pose proof (outcome_normalization Sample.env
                  (set_projectId "my-project-id" Sample.transportWithoutProject)
                  (Req.spread (Sample.forProject "my-project-id") Sample.listBuckets)
                  (Some Sample.quiet) "uuid" Sample.world) as H.
    cbv zeta in H. specialize (H ltac:(vm_compute; reflexivity)).
    specialize (H ltac:(intros f args [= <-]; reflexivity)).
    destruct (dispatched _) as [|[config i] l] eqn:E; [vm_compute in E; discriminate E|].
    destruct H as (Hr & Hc). cbv zeta. split; [exact Hr|].
    change (request (authClient (set_projectId "my-project-id"
                                   Sample.transportWithoutProject)) config)
      with (@Throw GaxiosResponse Sample.notFound) in Hc.
    exact Hc.
Defined.

(** *** Outside the amended contract *)

(** A header name that is no token makes [new Headers] throw, before the
    [try] block: the promise is rejected and the callback is not invoked. *)
Lemma invalid_header_rejects_past_callback :
  let r := call Sample.env Sample.transport
             (Sample.descriptor "GET" "retry_test/abc" [("bad name", "x")] None)
             (Some Sample.quiet) "uuid" Sample.world in
  r.1 = Throw (TypeError "Invalid header name")
  /\ events_since Sample.world r.2 = [].
Proof. vm_compute. split; reflexivity. Qed.

(** A callback that throws on a response is invoked a second time, by
    the [catch] of the promise chain, with what it threw. *)
Lemma throwing_callback_invoked_twice :
  let complaint := TypeError "callback failed" in
  let picky : StorageTransportCallback :=
    fun args => match cb_err args with Null => Some complaint | _ => None end in
  let r := call Sample.env Sample.transport Sample.getRetryTest (Some picky) "uuid"
             Sample.world in
  callbacks (events_since Sample.world r.2)
  = [args_success (Sample.response "{kind: storage#bucket}"); args_failure complaint].
Proof. vm_compute. reflexivity. Qed.

(** ** The examples of the conformance tests *)

(** The sample listing: a relative path after the base URL, and the
    parameters in their order, with [project] substituted. *)
Lemma dispatched_url_witness :
  Forall
    (fun ci =>
       exists located u params,
         Req.url ci.1 = Some (Url.UObject u)
         /\ URL_parse Sample.env "http://localhost:9000/storage/v1/b" = Some located
         /\ Url.url_prefix u = Url.url_prefix located
         /\ Url.url_query u = Some (join "&" (map FormUrlencoded.serialize_pair params))
         /\ map fst params = ["maxResults"; "project"; "prefix"]
         /\ FormUrlencoded.assoc "prefix" params = Some "a b&c")
    (dispatched
       (events_since Sample.world
          (call Sample.env Sample.transport Sample.listBuckets None "uuid"
             Sample.world).2))
  /\ map (fun ci => Url.toString <$> Req.url ci.1)
       (dispatched
          (events_since Sample.world
             (call Sample.env Sample.transport Sample.listBuckets None "uuid"
                Sample.world).2))
     = [Some "http://localhost:9000/storage/v1/b?maxResults=10&project=correct-id&prefix=a+b%26c"].
Proof.
  split; [|vm_compute; reflexivity].
  eapply Forall_impl;
    [exact (dispatched_url Sample.env Sample.transport Sample.listBuckets None "uuid"
              Sample.world)|].
  intros ci (located & u & params & Hu & Hloc & Hp & _ & Hq & _ & Hk & Hv).
  exists located, u, params.
  split; [exact Hu|]. split; [exact Hloc|]. split; [exact Hp|].
  split; [|split; [exact Hk | apply Hv; discriminate]].
  rewrite Hq. destruct params; [discriminate Hk | reflexivity].
Defined.

(** The sample listing with the command tag [storage.buckets.list], and
    the sample request without a tag: each is dispatched, once. *)
Lemma command_tag_appended_witness :
  (let evs := events_since Sample.world
                (call Sample.env Sample.transport Sample.taggedList None "uuid"
                   Sample.world).2 in
   length (dispatched evs) = 1
   /\ Forall
        (fun ci =>
           exists h,
             Req.headers ci.1 = Some (Fetch.HObject h)
             /\ Fetch.hget "x-goog-api-client" h
                = Some "gl-node/20.11.0 gccl/7.16.0-CJS gccl-invocation-id/uuid gccl-gcs-cmd/storage.buckets.list")
        (dispatched evs))
  /\ (let evs := events_since Sample.world
                   (call Sample.env Sample.transport Sample.getRetryTest None "uuid"
                      Sample.world).2 in
      length (dispatched evs) = 1
      /\ Forall
           (fun ci =>
              exists h,
                Req.headers ci.1 = Some (Fetch.HObject h)
                /\ Fetch.hget "x-goog-api-client" h
                   = Some "gl-node/20.11.0 gccl/7.16.0-CJS gccl-invocation-id/uuid")
           (dispatched evs)).
Proof.
  split.
  - exact (command_tag_appended Sample.env Sample.transport Sample.taggedList None "uuid"
             Sample.world).
  - exact (command_tag_appended Sample.env Sample.transport Sample.getRetryTest None "uuid"
             Sample.world).
Defined.

(** C9, as stated, fails for a command tag that ends with whitespace:
    the tag is [storage.buckets.list] followed by a space, and the
    tracking header of the one request of the call ends with
    [storage.buckets.list]. *)
Lemma command_tag_not_verbatim :
  let tag := "storage.buckets.list " in
  let reqOpts := Req.spread (Sample.tagged tag) Sample.listBuckets in
  let tracking := Fetch.normalize (trackingString Sample.env "uuid") in
  let evs := events_since Sample.world
               (call Sample.env Sample.transport reqOpts None "uuid" Sample.world).2 in
  Req.GCCL_GCS_CMD_KEY reqOpts = Some tag
  /\ map (fun ci =>
            match Req.headers ci.1 with
            | Some (Fetch.HObject h) => Fetch.hget "x-goog-api-client" h
            | _ => None
            end)
       (dispatched evs)
     = [Some "gl-node/20.11.0 gccl/7.16.0-CJS gccl-invocation-id/uuid gccl-gcs-cmd/storage.buckets.list"]
  /\ ~ Forall
        (fun ci =>
           exists h,
             Req.headers ci.1 = Some (Fetch.HObject h)
             /\ Fetch.hget "x-goog-api-client" h
                = Some (tracking +:+ " gccl-gcs-cmd/" +:+ tag))
        (dispatched evs).
Proof.
  cbv zeta.
  assert (H : map (fun ci =>
                     match Req.headers ci.1 with
                     | Some (Fetch.HObject h) => Fetch.hget "x-goog-api-client" h
                     | _ => None
                     end)
                (dispatched
                   (events_since Sample.world
                      (call Sample.env Sample.transport
                         (Req.spread (Sample.tagged "storage.buckets.list ")
                            Sample.listBuckets)
                         None "uuid" Sample.world).2))
              = [Some "gl-node/20.11.0 gccl/7.16.0-CJS gccl-invocation-id/uuid gccl-gcs-cmd/storage.buckets.list"])
    by (vm_compute; reflexivity).
  split; [reflexivity|]. split; [exact H|].
  intros HF. destruct (dispatched _) as [|ci l]; [discriminate H|].
  apply Forall_cons in HF as [(h & Hh & Hget) _]. injection H as H _.
  rewrite Hh, Hget in H. vm_compute in H. discriminate H.
Qed.

(** The sample request carries a timeout of its own in place of the
    one of the transport: it is dispatched, once, with the timeout of the
    transport and the URL the transport built. *)
Lemma transport_fields_override_witness :
  let reqOpts := Req.with_timeout (Some 5%Q) Sample.getRetryTest in
  let evs := events_since Sample.world
               (call Sample.env Sample.transport reqOpts None "uuid" Sample.world).2 in
  length (dispatched evs) = 1
  /\ Forall
       (fun ci =>
          Req.timeout ci.1 = Some 600%Q
          /\ (Url.toString <$> Req.url ci.1) = Some "http://localhost:9000/retry_test/abc")
       (dispatched evs)
  /\ Req.timeout reqOpts = Some 5%Q
  /\ Req.url reqOpts = Some (Url.UString "retry_test/abc").
Proof.
  cbv zeta.
  destruct (transport_fields_override Sample.env Sample.transport
              (Req.with_timeout (Some 5%Q) Sample.getRetryTest) None "uuid"
              Sample.world) as (Hn & HF).
  split; [exact Hn|]. split; [|split; reflexivity].
  eapply Forall_impl; [exact HF|].
  intros ci (h & u & _ & Hb & Hu & _ & Ht). split; [exact Ht|].
  rewrite Hu. cbn [fmap option_fmap option_map Url.toString].
  vm_compute in Hb. injection Hb as <-. reflexivity.
Defined.

(** * Further properties of the transport *)

(** ** When the header assembly throws *)

Section HeaderValidity.

Variable env : Env.

Import Fetch FetchFacts FetchValidity.

Lemma is_Ok_cbind {A B} (m : Completion A) (k : A -> Completion B) :
  is_Ok (cbind m k) = match m with Ok a => is_Ok (k a) | Throw _ => false end.
Proof. now destruct m. Qed.

Lemma is_Ok_check (n v : string) : is_Ok (check n v) = entry_ok (n, v).
Proof.
  unfold check, entry_ok. cbn [fst snd].
  destruct (valid_name n); [|reflexivity]. now destruct (valid_value (normalize v)).
Qed.

Lemma is_Ok_happend (h : Headers) (n v : string) :
  is_Ok (happend h n v) = entry_ok (n, v).
Proof.
  unfold happend. rewrite is_Ok_cbind, <- is_Ok_check. now destruct (check n v).
Qed.

Lemma is_Ok_hset (h : Headers) (n v : string) : is_Ok (hset h n v) = entry_ok (n, v).
Proof.
  unfold hset. rewrite is_Ok_cbind, <- is_Ok_check. now destruct (check n v).
Qed.

Lemma is_Ok_fill (entries : list (string * string)) (acc : Headers) :
  is_Ok (fill acc entries) = forallb entry_ok entries.
Proof.
  revert acc. induction entries as [|[n v] entries IH]; intros acc; [reflexivity|].
  cbn [fill forallb]. rewrite is_Ok_cbind, <- (is_Ok_happend acc n v).
  destruct (happend acc n v); [apply IH | reflexivity].
Qed.

Lemma is_Ok_new_Headers (init : HeadersInit) : is_Ok (new_Headers init) = init_ok init.
Proof. destruct init; [apply is_Ok_fill | reflexivity]. Qed.

Lemma valid_value_app (a b : string) :
  valid_value (a +:+ b) = valid_value a && valid_value b.
Proof. apply all_chars_app. Qed.

(** X2. The header assembly of [makeRequest] succeeds exactly when
    [Headers] accepts every header of the descriptor, the user agent
    string and the tracking string and, if the descriptor carries a
    command tag, the tag less its trailing whitespace. *)
Theorem header_assembly_succeeds_iff (self : StorageTransport) (uuid : string)
    (reqOpts : Req.t) :
  is_Ok (assembleHeaders env self uuid reqOpts)
  = init_ok (default (HRecord []) (Req.headers reqOpts))
    && valid_value (normalize (getUserAgentString env self))
    && valid_value (normalize (trackingString env uuid))
    && match Req.GCCL_GCS_CMD_KEY reqOpts with
       | Some (String c tag) => valid_value (rstrip (String c tag))
       | _ => true
       end.
Proof.
  unfold assembleHeaders. rewrite is_Ok_cbind.
  destruct (buildRequestHeaders env self uuid (Req.headers reqOpts)) as [hb|e] eqn:Hb.
  - pose proof Hb as Hb'.
    apply buildRequestHeaders_Ok in Hb' as (h0 & H0 & _ & Hxg & _).
    unfold buildRequestHeaders in Hb.
    assert (Hinit : init_ok (default (HRecord []) (Req.headers reqOpts)) = true).
    { rewrite <- is_Ok_new_Headers, H0. reflexivity. }
    rewrite H0 in Hb. cbn [cbind] in Hb.
    destruct (hset h0 "User-Agent" (getUserAgentString env self)) as [h1|] eqn:H1;
      [|discriminate Hb].
    cbn [cbind] in Hb.
    assert (Hua : valid_value (normalize (getUserAgentString env self)) = true).
    { pose proof (is_Ok_hset h0 "User-Agent" (getUserAgentString env self)) as E.
      rewrite H1 in E. unfold entry_ok in E. cbn [fst snd] in E.
      symmetry in E. now apply andb_true_iff in E as [_ E]. }
    assert (Htr : valid_value (normalize (trackingString env uuid)) = true).
    { pose proof (is_Ok_hset h1 "x-goog-api-client" (trackingString env uuid)) as E.
      rewrite Hb in E. unfold entry_ok in E. cbn [fst snd] in E.
      symmetry in E. now apply andb_true_iff in E as [_ E]. }
    rewrite Hinit, Hua, Htr. cbn [andb].
    destruct (Req.GCCL_GCS_CMD_KEY reqOpts) as [[|c tag]|]; cbn [truthy]; try reflexivity.
    change (negb (String.eqb (String c tag) "")) with true. cbn [is_Ok].
    rewrite is_Ok_hset, Hxg. unfold entry_ok. cbn [fst snd default from_option id].
    change (normalize (trackingString env uuid) +:+ " gccl-gcs-cmd/" +:+ String c tag)
      with (normalize (trackingString env uuid) +:+ " gccl-gcs-cmd"
            +:+ String "/" (String c tag)).
    rewrite (normalize_append _ " gccl-gcs-cmd" "/" (String c tag))
      by (apply trackingString_not_blank || reflexivity).
    rewrite !valid_value_app, Htr. reflexivity.
  - cbn [is_Ok]. symmetry.
    unfold buildRequestHeaders in Hb.
    destruct (new_Headers (default (HRecord []) (Req.headers reqOpts))) as [h0|] eqn:H0.
    + cbn [cbind] in Hb.
      destruct (hset h0 "User-Agent" (getUserAgentString env self)) as [h1|] eqn:H1.
      * cbn [cbind] in Hb.
        pose proof (is_Ok_hset h1 "x-goog-api-client" (trackingString env uuid)) as E.
        rewrite Hb in E. unfold entry_ok in E. cbn [fst snd is_Ok] in E.
        change (valid_name "x-goog-api-client") with true in E. cbn [andb] in E.
        rewrite <- E. now rewrite andb_false_r.
      * pose proof (is_Ok_hset h0 "User-Agent" (getUserAgentString env self)) as E.
        rewrite H1 in E. unfold entry_ok in E. cbn [fst snd is_Ok] in E.
        change (valid_name "User-Agent") with true in E. cbn [andb] in E.
        rewrite <- E. now rewrite andb_false_r.
    + rewrite <- is_Ok_new_Headers, H0. reflexivity.
Qed.

(** X1. When the header assembly throws, the promise of [makeRequest] is
    rejected with what it threw, whether a callback was supplied or not;
    nothing else has happened: no callback and no interceptor
    installation, no lookup, no request, and the instance and the module
    variable are as before. *)
Theorem header_failure_rejects (self : StorageTransport) (reqOpts : Req.t)
    (callback : option StorageTransportCallback) (uuid : string) (w : World) :
  is_Ok (assembleHeaders env self uuid reqOpts) = false ->
  exists e,
    assembleHeaders env self uuid reqOpts = Throw e
    /\ call env self reqOpts callback uuid w = (Throw e, {| this := self; world := w |}).
Proof.
  intros H. rewrite makeRequest_run.
  destruct (assembleHeaders env self uuid reqOpts) as [h|e]; [discriminate H|].
  now exists e.
Qed.

Lemma hset_filter (h h' : Headers) (n v : string) :
  hset h n v = Ok h' -> List.filter (matches n) h' = [(lower n, normalize v)].
Proof.
  unfold hset. destruct (check n v) as [v'|] eqn:C; [|discriminate].
  apply check_Ok in C as (-> & _ & _). cbn [cbind]. intros [= <-].
  destruct (existsb (matches n) h) eqn:E.
  - now apply filter_matches_replace_first.
  - rewrite List.filter_app, (existsb_filter_nil _ _ E). cbn [List.filter app].
    unfold matches. cbn [fst]. now rewrite String.eqb_refl.
Qed.

Lemma hset_filter_other (h h' : Headers) (m n v : string) :
  hset h n v = Ok h' -> lower m <> lower n ->
  List.filter (matches m) h' = List.filter (matches m) h.
Proof.
  unfold hset. destruct (check n v) as [v'|] eqn:C; [|discriminate].
  cbn [cbind]. intros [= <-] Hne.
  destruct (existsb (matches n) h) eqn:E.
  - now apply filter_matches_other.
  - rewrite List.filter_app. cbn [List.filter]. unfold matches at 2. cbn [fst].
    destruct (String.eqb_spec (lower n) (lower m)); [congruence|].
    apply app_nil_r.
Qed.

(** X3. In the headers of a dispatched request there is one header
    named [User-Agent] and one named [x-goog-api-client], whatever the
    descriptor supplied under these names, in whatever letter case and
    however many times: the values of the caller under the reserved names
    are replaced, not kept beside those of the transport. *)
Theorem reserved_headers_single (self : StorageTransport) (reqOpts : Req.t)
    (callback : option StorageTransportCallback) (uuid : string) (w : World) :
  Forall
    (fun ci =>
       exists h,
         Req.headers ci.1 = Some (HObject h)
         /\ List.filter (matches "User-Agent") h
            = [("user-agent", normalize (getUserAgentString env self))]
         /\ count_named "User-Agent" h = 1
         /\ count_named "x-goog-api-client" h = 1)
    (dispatched (events_since w (call env self reqOpts callback uuid w).2)).
Proof.
  apply Forall_dispatched. intros h pid u Hh _ _. cbn [fst].
  exists h. split; [apply config_of_fields|].
  unfold assembleHeaders, cbind in Hh.
  destruct (buildRequestHeaders env self uuid (Req.headers reqOpts)) as [hb|] eqn:Hb;
    [|discriminate Hh].
  unfold buildRequestHeaders, cbind in Hb.
  destruct (new_Headers _) as [h0|]; [|discriminate Hb].
  destruct (hset h0 "User-Agent" _) as [h1|] eqn:H1; [|discriminate Hb].
  assert (Hua : List.filter (matches "User-Agent") hb
                = [("user-agent", normalize (getUserAgentString env self))]).
  { rewrite (hset_filter_other _ _ "User-Agent" _ _ Hb) by discriminate.
    apply (hset_filter _ _ _ _ H1). }
  assert (Hxg : List.filter (matches "x-goog-api-client") hb
                = [("x-goog-api-client", normalize (trackingString env uuid))])
    by apply (hset_filter _ _ _ _ Hb).
  unfold count_named.
  destruct (truthy (Req.GCCL_GCS_CMD_KEY reqOpts)).
  - rewrite (hset_filter_other _ _ "User-Agent" _ _ Hh) by discriminate.
    rewrite (hset_filter _ _ _ _ Hh), Hua. repeat split; reflexivity.
  - injection Hh as <-. rewrite Hua, Hxg. repeat split; reflexivity.
Qed.

End HeaderValidity.

(** A descriptor with the header name [bad name]: the call is rejected
    though a callback is supplied, and a descriptor that lists interceptors
    leaves the engine as it was. *)
Lemma header_failure_rejects_witness :
  exists e,
    assembleHeaders Sample.env Sample.transport "uuid"
      (Req.spread (Sample.intercepted [7])
         (Sample.descriptor "GET" "retry_test/abc" [("bad name", "x")] None))
    = Throw e
    /\ call Sample.env Sample.transport
         (Req.spread (Sample.intercepted [7])
            (Sample.descriptor "GET" "retry_test/abc" [("bad name", "x")] None))
         (Some Sample.quiet) "uuid" Sample.world
       = (Throw e, {| this := Sample.transport; world := Sample.world |}).
Proof.
  apply (header_failure_rejects Sample.env Sample.transport
           (Req.spread (Sample.intercepted [7])
              (Sample.descriptor "GET" "retry_test/abc" [("bad name", "x")] None))
           (Some Sample.quiet) "uuid" Sample.world).
  vm_compute. reflexivity.
Defined.

(** The descriptor supplies [USER-AGENT] and [user-agent]: one header of
    that name is dispatched, with the value of the transport. *)
Lemma reserved_headers_single_witness :
  Forall
    (fun ci =>
       exists h,
         Req.headers ci.1 = Some (Fetch.HObject h)
         /\ List.filter (Fetch.matches "User-Agent") h
            = [("user-agent", "retry-test gcloud-node-storage/7.16.0")]
         /\ FetchValidity.count_named "User-Agent" h = 1
         /\ FetchValidity.count_named "x-goog-api-client" h = 1)
    (dispatched
       (events_since Sample.world
          (call Sample.env Sample.transport
             (Sample.descriptor "GET" "retry_test/abc"
                [("USER-AGENT", "mine"); ("user-agent", "mine too")] None)
             None "uuid" Sample.world).2))
  /\ length (dispatched
               (events_since Sample.world
                  (call Sample.env Sample.transport
                     (Sample.descriptor "GET" "retry_test/abc"
                        [("USER-AGENT", "mine"); ("user-agent", "mine too")] None)
                     None "uuid" Sample.world).2)) = 1.
Proof.
  split; [|vm_compute; reflexivity].
  exact (reserved_headers_single Sample.env Sample.transport
           (Sample.descriptor "GET" "retry_test/abc"
              [("USER-AGENT", "mine"); ("user-agent", "mine too")] None)
           None "uuid" Sample.world).
Defined.

(** ** The callback, the URL and the state of a call *)

Section CallFacts.

Variable env : Env.

Import FormUrlencoded FormUrlencodedFacts UrlFacts.

Lemma callbacks_settle_events_Some (cb : StorageTransportCallback)
    (p : Completion GaxiosResponse) :
  callbacks (settle_events (Some cb) p)
  = match p with
    | Ok resp =>
        args_success resp
        :: match cb (args_success resp) with
           | None => []
           | Some e => [args_failure e]
           end
    | Throw err => [args_failure err]
    end.
Proof.
  destruct p as [resp|err]; cbn; [|reflexivity].
  now destruct (cb (args_success resp)).
Qed.

(** The callbacks of a call. *)
Lemma call_callbacks (self : StorageTransport) (reqOpts : Req.t)
    (callback : option StorageTransportCallback) (uuid : string) (w : World) :
  callbacks (events_since w (call env self reqOpts callback uuid w).2)
  = match assembleHeaders env self uuid reqOpts with
    | Throw e => []
    | Ok h =>
        match resolution self reqOpts with
        | Throw e => callbacks (on_error_events callback e)
        | Ok pid =>
            let self' := resolved_instance pid self in
            match url_for env self' (Some pid) reqOpts with
            | Throw e => callbacks (on_error_events callback e)
            | Ok u =>
                callbacks
                  (settle_events callback
                     (request (authClient self) (config_of self' reqOpts h u)))
            end
        end
    end.
Proof.
  rewrite call_events.
  destruct (assembleHeaders env self uuid reqOpts) as [h|e]; [|reflexivity].
  destruct (resolution self reqOpts) as [pid|e].
  - cbn zeta.
    destruct (url_for env (resolved_instance pid self) (Some pid) reqOpts) as [u|e];
      now rewrite callbacks_app, callbacks_lookup_events.
  - now rewrite callbacks_app, callbacks_lookup_events.
Qed.

(** X4. With a callback and headers that assemble, the callback is
    invoked, once or twice, and the promise settles as the last
    invocation went: resolved with [undefined] if it returned, rejected
    with what it threw.  It is invoked twice only when the request
    succeeded and the invocation with the response threw: it is then
    invoked again, with what it threw as the error. *)
Theorem callback_decides_outcome (self : StorageTransport) (reqOpts : Req.t)
    (cb : StorageTransportCallback) (uuid : string) (w : World) :
  let r := call env self reqOpts (Some cb) uuid w in
  let evs := events_since w r.2 in
  is_Ok (assembleHeaders env self uuid reqOpts) = true ->
  exists first rest,
    callbacks evs = first :: rest
    /\ r.1 = match cb (default first (last rest)) with
             | None => Ok None
             | Some thrown => Throw thrown
             end
    /\ (rest = []
        \/ exists resp thrown,
             first = args_success resp
             /\ cb first = Some thrown
             /\ rest = [args_failure thrown]).
Proof.
  intros r evs Hh. subst evs r.
  apply is_Ok_inv in Hh as (h & Hh).
  rewrite call_callbacks, call_result, Hh.
  destruct (resolution self reqOpts) as [pid|e].
  - cbn zeta.
    destruct (url_for env (resolved_instance pid self) (Some pid) reqOpts) as [u|e].
    + rewrite callbacks_settle_events_Some.
      destruct (request (authClient self) _) as [resp|err].
      * cbn [settle_result].
        destruct (cb (args_success resp)) as [thrown|] eqn:E.
        -- exists (args_success resp), [args_failure thrown].
           split; [reflexivity|]. split; [reflexivity|]. right. eauto.
        -- exists (args_success resp), []. cbn. rewrite E. auto.
      * exists (args_failure err), []. cbn. auto.
    + exists (args_error_only e), []. cbn. auto.
  - exists (args_error_only e), []. cbn. auto.
Qed.

Lemma url_for_invalid (self : StorageTransport) (m : option string) (reqOpts : Req.t) :
  URL_parse env (default "" (Url.toString <$> Req.url reqOpts)) = None ->
  URL_parse env (baseUrl self +:+ default "" (Url.toString <$> Req.url reqOpts)) = None ->
  url_for env self m reqOpts = Throw (TypeError "Invalid URL").
Proof.
  intros H1 H2. unfold url_for, cbind, locate, isValidUrl, new_URL.
  now rewrite H1, H2.
Qed.

(** X5. When neither the URL of the descriptor nor the base URL followed
    by it parses, no request is dispatched and the error [Invalid URL]
    goes to the callback, alone, or rejects the promise; by then the
    project id is resolved: the module variable holds it, the instance
    holds it if it is not empty, and the interceptors of the descriptor
    are installed. *)
Theorem invalid_url_after_resolution (self : StorageTransport) (reqOpts : Req.t)
    (callback : option StorageTransportCallback) (uuid : string) (w : World)
    (pid : string) :
  let r := call env self reqOpts callback uuid w in
  let evs := events_since w r.2 in
  let pathUri := default "" (Url.toString <$> Req.url reqOpts) in
  let e := TypeError "Invalid URL" in
  is_Ok (assembleHeaders env self uuid reqOpts) = true ->
  resolution self reqOpts = Ok pid ->
  URL_parse env pathUri = None ->
  URL_parse env (baseUrl self +:+ pathUri) = None ->
  dispatched evs = []
  /\ match callback with
     | Some cb =>
         callbacks evs = [args_error_only e]
         /\ r.1 = match cb (args_error_only e) with
                  | None => Ok None
                  | Some thrown => Throw thrown
                  end
     | None => callbacks evs = [] /\ r.1 = Throw e
     end
  /\ module_projectId (after r) = Some pid
  /\ projectId (this r.2) = (if String.eqb pid "" then projectId self else Some pid)
  /\ match Req.interceptors reqOpts with
     | Some l => installed (after r) (gaxiosInstance self) = added_in_order l
     | None => engines (after r) = engines w
     end.
Proof.
  intros r evs pathUri e Hh Hres H1 H2. subst evs r pathUri e.
  apply is_Ok_inv in Hh as (h & Hh).
  assert (Hbase : baseUrl (resolved_instance pid self) = baseUrl self)
    by apply resolved_instance_fields.
  assert (Hu : url_for env (resolved_instance pid self) (Some pid) reqOpts
               = Throw (TypeError "Invalid URL")).
  { apply url_for_invalid; [exact H1 | now rewrite Hbase]. }
  unfold after, installed.
  rewrite call_dispatched, call_callbacks, call_result, call_module_projectId,
    call_this, call_engines, Hh, Hres.
  cbn zeta. rewrite Hu.
  split; [reflexivity|]. split; [now destruct callback|].
  split; [reflexivity|]. split.
  - unfold resolved_instance, truthy. destruct (String.eqb pid ""); reflexivity.
  - destruct (Req.interceptors reqOpts) as [l|]; [|reflexivity].
    now rewrite lookup_insert_eq.
Qed.

(** X6. When the query parameters of the descriptor have the reserved
    name [project], the [project] parameter of the dispatched URL is the
    resolved project id if that is not empty; if it is empty, the
    parameter is the project id the instance held before the call and,
    if it held none, the text [undefined]. *)
Theorem project_parameter_from_instance (self : StorageTransport) (reqOpts : Req.t)
    (callback : option StorageTransportCallback) (uuid : string) (w : World)
    (qp : StorageQueryParameters) (supplied : QueryValue) :
  Req.queryParameters reqOpts = Some qp ->
  assoc "project" qp = Some supplied ->
  Forall
    (fun ci =>
       exists u,
         Req.url ci.1 = Some (Url.UObject u)
         /\ Url.searchParams_get "project" u
            = Some match resolution self reqOpts with
                   | Ok (String c pid) => String c pid
                   | _ => default "undefined" (projectId self)
                   end)
    (dispatched (events_since w (call env self reqOpts callback uuid w).2)).
Proof.
  intros Hqp Hproject. apply Forall_dispatched.
  intros h pid u _ Hres Hu. cbn [fst].
  apply url_for_Ok in Hu as (located & _ & ->).
  eexists. split; [apply config_of_fields|].
  rewrite searchParams_get_set_search, assoc_searchParams_of, Hqp.
  cbn [default from_option id].
  rewrite (substitute_project_project _ _ _ _ Hproject), Hres.
  destruct (resolved_instance_fields pid self) as (_ & _ & _ & _ & _ & ->).
  destruct pid as [|c pid]; cbn; [|reflexivity].
  now destruct (projectId self).
Qed.

(** X7. The query string [#buildRequestQueryParams] returns decodes, as
    a form-urlencoded string, to the names of the parameters with their
    values as strings, in their order; it is made of the bytes the URL
    parser leaves as they are in a query; it is empty only when there is
    no parameter. *)
Theorem buildRequestQueryParams_round_trip (queryParameters : StorageQueryParameters) :
  parse (buildRequestQueryParams queryParameters)
  = map (fun kv => (kv.1, QueryValue_toString kv.2)) queryParameters
  /\ all_chars query_byte (buildRequestQueryParams queryParameters) = true
  /\ (buildRequestQueryParams queryParameters = "" <-> queryParameters = []).
Proof.
  unfold buildRequestQueryParams. split; [apply parse_serialize|].
  split; [apply serialize_query_bytes|].
  rewrite <- String.eqb_eq, serialize_empty_iff. unfold searchParams_of.
  split; [apply map_eq_nil | now intros ->].
Qed.

(** X8. A call changes nothing of the instance but its project id,
    which, if it changes, becomes the resolved id, a non-empty string;
    the module variable, if it changes, becomes the resolved id, empty
    or not. *)
Theorem call_changes_project_only (self : StorageTransport) (reqOpts : Req.t)
    (callback : option StorageTransportCallback) (uuid : string) (w : World) :
  let r := call env self reqOpts callback uuid w in
  authClient (this r.2) = authClient self
  /\ providedUserAgent (this r.2) = providedUserAgent self
  /\ retryOptions (this r.2) = retryOptions self
  /\ baseUrl (this r.2) = baseUrl self
  /\ timeout (this r.2) = timeout self
  /\ useAuthWithCustomEndpoint (this r.2) = useAuthWithCustomEndpoint self
  /\ gaxiosInstance (this r.2) = gaxiosInstance self
  /\ (projectId (this r.2) = projectId self
      \/ exists pid, pid <> "" /\ resolution self reqOpts = Ok pid
                     /\ projectId (this r.2) = Some pid)
  /\ (module_projectId (after r) = module_projectId w
      \/ exists pid, resolution self reqOpts = Ok pid
                     /\ module_projectId (after r) = Some pid).
Proof.
  intros r. subst r. unfold after. rewrite call_module_projectId, call_this.
  destruct (assembleHeaders env self uuid reqOpts) as [h|]; [|repeat split; auto].
  destruct (resolution self reqOpts) as [pid|]; [|repeat split; auto].
  unfold resolved_instance. destruct (truthy (Some pid)) eqn:Ht.
  - apply truthy_Some in Ht. cbn. repeat split; eauto.
  - repeat split; eauto.
Qed.

Lemma map_EvCallback_on_error_events (callback : option StorageTransportCallback)
    (e : GaxiosError) :
  map EvCallback (callbacks (on_error_events callback e)) = on_error_events callback e.
Proof. now destruct callback. Qed.

Lemma map_EvCallback_settle_events (callback : option StorageTransportCallback)
    (p : Completion GaxiosResponse) :
  map EvCallback (callbacks (settle_events callback p)) = settle_events callback p.
Proof.
  destruct callback as [cb|], p as [resp|err]; cbn; try reflexivity.
  now destruct (cb (args_success resp)).
Qed.

(** X9. The events of a call, in their order: the lookup of the project
    id, made exactly when the headers assemble and the descriptor has no
    project id; then the request, if one is dispatched; then the
    invocations of the callback.  There is at most one request and there
    are at most two invocations, none without a callback. *)
Theorem call_event_order (self : StorageTransport) (reqOpts : Req.t)
    (callback : option StorageTransportCallback) (uuid : string) (w : World) :
  let r := call env self reqOpts callback uuid w in
  let evs := events_since w r.2 in
  evs = (if is_Ok (assembleHeaders env self uuid reqOpts)
            && negb (truthy (Req.projectId reqOpts))
         then [EvGetProjectId] else [])
        ++ map (fun ci => EvRequest ci.1 ci.2) (dispatched evs)
        ++ map EvCallback (callbacks evs)
  /\ length (dispatched evs) <= 1
  /\ length (callbacks evs) <= 2
  /\ (callback = None -> callbacks evs = []).
Proof.
  intros r evs. subst evs r.
  rewrite call_dispatched, call_callbacks, call_events.
  destruct (assembleHeaders env self uuid reqOpts) as [h|]; cbn [is_Ok andb];
    [|cbn; repeat split; auto with lia].
  unfold lookup_events. destruct (truthy (Req.projectId reqOpts)); cbn [negb].
  all: destruct (resolution self reqOpts) as [pid|e]; cbn zeta.
  all: try destruct (url_for env (resolved_instance pid self) (Some pid) reqOpts)
         as [u|e].
  all: cbn [map app length fst snd].
  all: rewrite ?map_EvCallback_on_error_events, ?map_EvCallback_settle_events.
  all: split; [reflexivity|]; split; [lia|]; split;
         [|intros ->; cbn; try reflexivity; apply callbacks_settle_events_None].
  all: try (destruct callback; cbn; lia).
  all: destruct callback as [cb|]; [|rewrite callbacks_settle_events_None; cbn; lia].
  all: rewrite callbacks_settle_events_Some.
  all: destruct (request (authClient self) _) as [resp|err]; cbn; try lia.
  all: destruct (cb (args_success resp)); cbn; lia.
Qed.

(** X10. The interceptors a call installs stay on the engine of its
    transport: a later call whose descriptor lists none, on that
    transport or on any other, changes the interceptors of no engine, and
    the engine holds them after it as before. *)
Theorem interceptors_outlive_call (selfA selfB : StorageTransport) (reqA reqB : Req.t)
    (callbackA callbackB : option StorageTransportCallback) (uuidA uuidB : string)
    (w : World) (l : list GaxiosInterceptor) :
  Req.interceptors reqA = Some l ->
  is_Ok (assembleHeaders env selfA uuidA reqA) = true ->
  Req.interceptors reqB = None ->
  let a := call env selfA reqA callbackA uuidA w in
  let b := call env selfB reqB callbackB uuidB (after a) in
  installed (after a) (gaxiosInstance selfA) = added_in_order l
  /\ engines (after b) = engines (after a)
  /\ installed (after b) (gaxiosInstance selfA) = added_in_order l.
Proof.
  intros HA Hh HB a b. subst a b.
  apply is_Ok_inv in Hh as (hA & Hh).
  assert (Ha : installed (after (call env selfA reqA callbackA uuidA w))
                 (gaxiosInstance selfA) = added_in_order l).
  { unfold after, installed. rewrite call_engines, Hh, HA.
    now rewrite lookup_insert_eq. }
  assert (Hb : engines (after (call env selfB reqB callbackB uuidB
                                 (after (call env selfA reqA callbackA uuidA w))))
               = engines (after (call env selfA reqA callbackA uuidA w))).
  { unfold after at 1. rewrite call_engines, HB.
    now destruct (assembleHeaders env selfB uuidB reqB). }
  split; [exact Ha|]. split; [exact Hb|].
  unfold installed in *. now rewrite Hb.
Qed.

(** X11. Transports constructed without an engine get engines of their
    own, which the world did not hold and which hold no interceptor: the
    interceptors a call on the first installs are on the engine of the
    first, and the engine of the second holds none after that call as
    before it. *)
Theorem constructed_transports_are_separate (o1 o2 : TransportParameters.t) (w : World)
    (reqA : Req.t) (callbackA : option StorageTransportCallback) (uuidA : string)
    (l : list GaxiosInterceptor) :
  let c1 := constructor env o1 w in
  let c2 := constructor env o2 c1.2 in
  let a := call env c1.1 reqA callbackA uuidA c2.2 in
  TransportParameters.gaxiosInstance o1 = None ->
  TransportParameters.gaxiosInstance o2 = None ->
  Req.interceptors reqA = Some l ->
  is_Ok (assembleHeaders env c1.1 uuidA reqA) = true ->
  gaxiosInstance c1.1 <> gaxiosInstance c2.1
  /\ engines w !! gaxiosInstance c1.1 = None
  /\ engines w !! gaxiosInstance c2.1 = None
  /\ installed c2.2 (gaxiosInstance c1.1) = []
  /\ installed c2.2 (gaxiosInstance c2.1) = []
  /\ installed (after a) (gaxiosInstance c1.1) = added_in_order l
  /\ installed (after a) (gaxiosInstance c2.1) = [].
Proof.
  intros c1 c2 a H1 H2 HA Hh. subst a c2 c1.
  apply is_Ok_inv in Hh as (hA & Hh).
  unfold after, installed. rewrite call_engines, Hh, HA. clear Hh.
  unfold constructor. rewrite H1, H2.
  cbn [fst snd default from_option id engines gaxiosInstance].
  set (g1 := fresh (dom (engines w))).
  set (g2 := fresh (dom (<[g1:=[]]> (engines w)))).
  assert (Hg1 : engines w !! g1 = None).
  { apply not_elem_of_dom. apply is_fresh. }
  assert (Hg2 : <[g1:=[]]> (engines w) !! g2 = None).
  { apply not_elem_of_dom. apply is_fresh. }
  assert (Hne : g1 <> g2).
  { intros E. rewrite <- E, lookup_insert_eq in Hg2. discriminate. }
  split; [exact Hne|]. split; [exact Hg1|].
  split; [now rewrite lookup_insert_ne in Hg2|].
  split; [now rewrite (lookup_insert_ne _ g2 g1), lookup_insert_eq|].
  split; [now rewrite lookup_insert_eq|].
  split; [now rewrite lookup_insert_eq|].
  rewrite (lookup_insert_ne _ g1 g2) by exact Hne. now rewrite lookup_insert_eq.
Qed.

End CallFacts.

(** * The conformance harness *)

Section HarnessFacts.

Variable env : Env.

Import Fetch FetchFacts FormUrlencodedFacts UrlFacts Conformance.

(** Without a callback, the promise of a call that dispatched a request
    settles as the request did. *)
Lemma promise_follows_request (self : StorageTransport) (reqOpts : Req.t)
    (uuid : string) (w : World) :
  Forall
    (fun ci =>
       (call env self reqOpts None uuid w).1
       = match request (authClient self) ci.1 with
         | Ok resp => Ok (Some (resp_data resp))
         | Throw e => Throw e
         end)
    (dispatched (events_since w (call env self reqOpts None uuid w).2)).
Proof.
  apply Forall_dispatched. intros h pid u Hh Hres Hu. cbn [fst].
  rewrite call_result, Hh, Hres. cbn zeta. rewrite Hu.
  now destruct (request (authClient self) _).
Qed.

Lemma callbacks_without_callback (self : StorageTransport) (reqOpts : Req.t)
    (uuid : string) (w : World) :
  callbacks (events_since w (call env self reqOpts None uuid w).2) = [].
Proof.
  rewrite call_callbacks.
  destruct (assembleHeaders env self uuid reqOpts); [|reflexivity].
  destruct (resolution self reqOpts) as [pid|]; [|reflexivity].
  cbn zeta. destruct (url_for env _ _ _); [|reflexivity].
  apply callbacks_settle_events_None.
Qed.

(** A descriptor without query parameters is dispatched to a URL without
    a query, and with each header that is not one of the two reserved
    ones as [Headers] holds it. *)
Lemma plain_descriptor_dispatched (self : StorageTransport) (reqOpts : Req.t)
    (callback : option StorageTransportCallback) (uuid : string) (w : World) :
  Req.queryParameters reqOpts = None ->
  Forall
    (fun ci =>
       Req.method ci.1 = Req.method reqOpts
       /\ Req.body ci.1 = Req.body reqOpts
       /\ Req.retry ci.1 = Req.retry reqOpts
       /\ (exists u, Req.url ci.1 = Some (Url.UObject u) /\ Url.url_query u = None)
       /\ exists h,
            Req.headers ci.1 = Some (HObject h)
            /\ forall n, lower n <> "user-agent" -> lower n <> "x-goog-api-client" ->
                 hget n h = init_get n (default (HRecord []) (Req.headers reqOpts)))
    (dispatched (events_since w (call env self reqOpts callback uuid w).2)).
Proof.
  intros Hqp. apply Forall_dispatched. intros h pid u Hh _ Hu. cbn [fst].
  destruct (config_of_fields (resolved_instance pid self) reqOpts h u)
    as (Hhd & Hurl & _ & Hm & Hb & _).
  split; [exact Hm|]. split; [exact Hb|].
  split; [unfold config_of; cbn; now destruct (Req.retry reqOpts)|].
  split.
  - exists u. split; [exact Hurl|].
    apply url_for_Ok in Hu as (located & _ & ->). rewrite Hqp.
    cbn [default from_option id]. unfold substitute_project. cbn.
    reflexivity.
  - exists h. split; [exact Hhd|]. intros n H1 H2.
    apply assembleHeaders_Ok in Hh as (h0 & H0 & _ & _ & Hother).
    rewrite (Hother n H1 H2). now apply hget_new_Headers.
Qed.

(** X12. [getTestBenchRetryTest] invokes no callback.  If the test id is
    no header value (it holds a NUL, a line feed or a carriage return
    inside), the promise is rejected and nothing is looked up or
    requested.  A request
    it dispatches is a [GET] with [retry] set, no body, no query in its
    URL and the header [x-retry-test-id] holding the test id less the
    whitespace around it; the promise is resolved with the data of the
    response, or rejected with the error of the request. *)
Theorem getTestBenchRetryTest_request (testId : string) (storageTransport : StorageTransport)
    (uuid : string) (w : World) :
  let r := getTestBenchRetryTest env testId storageTransport uuid w in
  let evs := events_since w r.2 in
  callbacks evs = []
  /\ (if valid_value (normalize testId) then True
      else evs = [] /\ exists e, r.1 = Throw e)
  /\ Forall
       (fun ci =>
          Req.method ci.1 = Some "GET"
          /\ Req.retry ci.1 = Some true
          /\ Req.body ci.1 = None
          /\ (exists u, Req.url ci.1 = Some (Url.UObject u) /\ Url.url_query u = None)
          /\ (exists h, Req.headers ci.1 = Some (HObject h)
                        /\ hget "x-retry-test-id" h = Some (normalize testId))
          /\ r.1 = match request (authClient storageTransport) ci.1 with
                   | Ok resp => Ok (Some (resp_data resp))
                   | Throw e => Throw e
                   end)
       (dispatched evs).
Proof.
  intros r evs. subst evs r. unfold getTestBenchRetryTest.
  set (reqOpts := {| Req.method := Some "GET" |}).
  split; [apply callbacks_without_callback|]. split.
  - destruct (valid_value (normalize testId)) eqn:Hv; [exact I|].
    assert (Hh : assembleHeaders env storageTransport uuid reqOpts
                 = Throw (TypeError "Invalid header value")).
    { unfold assembleHeaders, buildRequestHeaders, reqOpts. cbn.
      unfold happend, check. cbn. now rewrite Hv. }
    rewrite call_events, call_result, Hh. split; [reflexivity | eauto].
  - pose proof (plain_descriptor_dispatched storageTransport reqOpts None uuid w eq_refl)
      as Hplain.
    pose proof (promise_follows_request storageTransport reqOpts uuid w) as Hres.
    eapply Forall_impl; [apply Forall_and; split; [exact Hplain | exact Hres]|].
    intros ci ((Hm & Hb & Hr & Hu & h & Hh & Hother) & Hsettle). cbn beta in *.
    repeat split; try assumption.
    exists h. split; [exact Hh|]. rewrite Hother by discriminate.
    cbn. reflexivity.
Qed.

(** X13. [createTestBenchRetryTest] invokes no callback.  A request it
    dispatches is a [POST] whose body is the JSON text of the
    instructions under the name of the method, with the content type
    [application/json] and no query in its URL; the promise is resolved
    with the data of the response, or rejected with the error of the
    request. *)
Theorem createTestBenchRetryTest_request (instructions : list string) (methodName : string)
    (storageTransport : StorageTransport) (uuid : string) (w : World) :
  let r := createTestBenchRetryTest env instructions methodName storageTransport uuid w in
  let evs := events_since w r.2 in
  callbacks evs = []
  /\ Forall
       (fun ci =>
          Req.method ci.1 = Some "POST"
          /\ Req.retry ci.1 = None
          /\ Req.body ci.1 = Some (JSON.stringify_requestBody methodName instructions)
          /\ (exists u, Req.url ci.1 = Some (Url.UObject u) /\ Url.url_query u = None)
          /\ (exists h, Req.headers ci.1 = Some (HObject h)
                        /\ hget "Content-Type" h = Some "application/json")
          /\ r.1 = match request (authClient storageTransport) ci.1 with
                   | Ok resp => Ok (Some (resp_data resp))
                   | Throw e => Throw e
                   end)
       (dispatched evs).
Proof.
  intros r evs. subst evs r. unfold createTestBenchRetryTest. cbv zeta.
  set (reqOpts := {| Req.method := Some "POST" |}).
  split; [apply callbacks_without_callback|].
  pose proof (plain_descriptor_dispatched storageTransport reqOpts None uuid w eq_refl)
    as Hplain.
  pose proof (promise_follows_request storageTransport reqOpts uuid w) as Hres.
  eapply Forall_impl; [apply Forall_and; split; [exact Hplain | exact Hres]|].
  intros ci ((Hm & Hb & Hr & Hu & h & Hh & Hother) & Hsettle). cbn beta in *.
  repeat split; try assumption.
  exists h. split; [exact Hh|]. rewrite Hother by discriminate.
  cbn. reflexivity.
Qed.

End HarnessFacts.

Section ScenarioFacts.

Import Conformance.

(** X14. For each instruction set of a test case, in order, and each
    method, in order, [executeScenario] registers one [describe] block
    for each function the map lists under the group of the method if the
    method has a group, else under its name; a method whose group is not
    in the map registers none, whatever the map lists under its name. *)
Theorem executeScenario_by_group_else_name (m : gmap string (list string))
    (testCase : RetryTestCase) (s : Suite) :
  In s (executeScenario m testCase)
  <-> In (instructionSet s) (cases testCase)
      /\ In (jsonMethod s) (methods testCase)
      /\ exists l,
           m !! default (name (jsonMethod s)) (group (jsonMethod s)) = Some l
           /\ In (title s) l.
Proof.
  unfold executeScenario. rewrite in_flat_map. split.
  - intros (c & Hc & H). apply in_flat_map in H as (jm & Hjm & H).
    apply in_map_iff in H as (t & <- & Ht). cbn.
    split; [exact Hc|]. split; [exact Hjm|].
    unfold functionList in Ht.
    destruct (group jm) as [g|]; cbn;
      match type of Ht with context [m !! ?k] =>
        destruct (m !! k) as [l|]; [eauto | destruct Ht] end.
  - intros (Hc & Hjm & l & Hl & Ht). exists (instructionSet s).
    split; [exact Hc|]. apply in_flat_map. exists (jsonMethod s).
    split; [exact Hjm|]. apply in_map_iff. exists (title s).
    split; [now destruct s|].
    unfold functionList. destruct (group (jsonMethod s)); cbn in Hl; now rewrite Hl.
Qed.

(** X15. With the map of the harness, which is empty, [executeScenario]
    registers no [describe] block, whatever the test case: the
    conformance scenarios run no test. *)
Theorem executeScenario_registers_nothing (testCase : RetryTestCase) :
  executeScenario methodMap testCase = [].
Proof.
  unfold executeScenario.
  induction (cases testCase) as [|c cs IH]; [reflexivity|].
  cbn [flat_map]. rewrite IH, app_nil_r. clear IH.
  induction (methods testCase) as [|jm ms IHm]; [reflexivity|].
  cbn [flat_map]. rewrite IHm, app_nil_r.
  unfold functionList, methodMap. now destruct (group jm).
Qed.

(** X16. [shortUUID] returns the part of the identifier before its first
    hyphen, the whole identifier if it has none: a string without a
    hyphen. *)
Theorem shortUUID_before_first_hyphen (v1 : string) :
  exists short,
    shortUUID v1 = Some short
    /\ all_chars (fun c => negb (Ascii.eqb c "-")) short = true
    /\ (v1 = short \/ exists rest, v1 = short +:+ String "-" rest).
Proof.
  unfold shortUUID. induction v1 as [|c r (short & Hs & Hall & Hsplit)].
  - exists "". cbn. auto.
  - cbn [FormUrlencoded.split_on]. destruct (Ascii.eqb_spec c "-") as [->|Hc].
    + exists "". cbn. split; [reflexivity|]. split; [reflexivity|]. right. now exists r.
    + destruct (FormUrlencoded.split_on "-" r) as [|x l]; [discriminate Hs|].
      injection Hs as ->. exists (String c short). split; [reflexivity|]. split.
      * cbn. rewrite Hall. apply Ascii.eqb_neq in Hc. now rewrite Hc.
      * destruct Hsplit as [->|(rest & ->)]; [now left|]. right. now exists rest.
Qed.

End ScenarioFacts.

Section DispatchFacts.

Variable env : Env.

(** X17. A call dispatches one request or none; it dispatches one
    exactly when the headers assemble, the descriptor carries a project
    id or the lookup of the auth client succeeds, and the URL of the
    descriptor parses, alone or after the base URL. *)
Theorem request_dispatched_iff (self : StorageTransport) (reqOpts : Req.t)
    (callback : option StorageTransportCallback) (uuid : string) (w : World) :
  let evs := events_since w (call env self reqOpts callback uuid w).2 in
  let pathUri := default "" (Url.toString <$> Req.url reqOpts) in
  length (dispatched evs)
  = if is_Ok (assembleHeaders env self uuid reqOpts)
       && (truthy (Req.projectId reqOpts) || is_Ok (getProjectId (authClient self)))
       && (isValidUrl env pathUri || isValidUrl env (baseUrl self +:+ pathUri))
    then 1 else 0.
Proof.
  intros evs pathUri. subst evs pathUri. rewrite call_dispatched.
  destruct (assembleHeaders env self uuid reqOpts) as [h|]; [|reflexivity].
  cbn [is_Ok andb]. unfold resolution.
  assert (Hurl : forall pid,
             length
               match url_for env (resolved_instance pid self) (Some pid) reqOpts with
               | Ok u =>
                   [(config_of (resolved_instance pid self) reqOpts h u,
                     installed_at_dispatch self reqOpts w)]
               | Throw _ => []
               end
             = if isValidUrl env (default "" (Url.toString <$> Req.url reqOpts))
                  || isValidUrl env
                       (baseUrl self +:+ default "" (Url.toString <$> Req.url reqOpts))
               then 1 else 0).
  { intros pid. unfold url_for, cbind, locate.
    assert (baseUrl (resolved_instance pid self) = baseUrl self) as ->
      by apply resolved_instance_fields.
    unfold isValidUrl, new_URL.
    destruct (URL_parse env (default "" _)); [reflexivity|].
    now destruct (URL_parse env (baseUrl self +:+ _)). }
  destruct (truthy (Req.projectId reqOpts)); cbn [orb]; [apply Hurl|].
  destruct (getProjectId (authClient self)) as [pid|]; cbn [is_Ok]; [apply Hurl|].
  reflexivity.
Qed.

End DispatchFacts.

(** ** Examples *)

(** The callback that throws on a success is invoked with the response,
    then with what it threw, on which it returns: the promise is
    resolved. *)
Lemma callback_decides_outcome_witness :
  let r := call Sample.env Sample.transport Sample.getRetryTest (Some SampleMore.picky)
             "uuid" Sample.world in
  let evs := events_since Sample.world r.2 in
  exists first rest,
    callbacks evs = first :: rest
    /\ r.1 = match SampleMore.picky (default first (last rest)) with
             | None => Ok None
             | Some thrown => Throw thrown
             end
    /\ (rest = []
        \/ exists resp thrown,
             first = args_success resp
             /\ SampleMore.picky first = Some thrown
             /\ rest = [args_failure thrown]).
Proof.
  apply (callback_decides_outcome Sample.env Sample.transport Sample.getRetryTest
           SampleMore.picky "uuid" Sample.world).
  vm_compute. reflexivity.
Defined.

(** The base URL [localhost] is no URL: the lookup finds [correct-id],
    which is kept, and the callback receives the error. *)
Lemma invalid_url_after_resolution_witness :
  let r := call Sample.env SampleMore.transportWithoutBase Sample.interceptedGet
             (Some Sample.quiet) "uuid" Sample.world in
  let evs := events_since Sample.world r.2 in
  let e := TypeError "Invalid URL" in
  dispatched evs = []
  /\ (callbacks evs = [args_error_only e] /\ r.1 = Ok None)
  /\ module_projectId (after r) = Some "correct-id"
  /\ projectId (this r.2) = Some "correct-id"
  /\ installed (after r) (gaxiosInstance SampleMore.transportWithoutBase) = [7; 3].
Proof.
  apply (invalid_url_after_resolution Sample.env SampleMore.transportWithoutBase
           Sample.interceptedGet (Some Sample.quiet) "uuid" Sample.world "correct-id").
  - vm_compute. reflexivity.
  - reflexivity.
  - reflexivity.
  - reflexivity.
Defined.

(** The auth client finds the empty string and the transport was
    constructed without a project id: the listing is requested with
    [project=undefined]. *)
Lemma project_parameter_from_instance_witness :
  Forall
    (fun ci =>
       exists u,
         Req.url ci.1 = Some (Url.UObject u)
         /\ Url.searchParams_get "project" u = Some "undefined")
    (dispatched
       (events_since Sample.world
          (call Sample.env SampleMore.transportWithEmptyProject Sample.listBuckets None
             "uuid" Sample.world).2))
  /\ length (dispatched
               (events_since Sample.world
                  (call Sample.env SampleMore.transportWithEmptyProject Sample.listBuckets
                     None "uuid" Sample.world).2)) = 1.
Proof.
  split; [|vm_compute; reflexivity].
  apply (project_parameter_from_instance Sample.env SampleMore.transportWithEmptyProject
           Sample.listBuckets None "uuid" Sample.world
           [("maxResults", QNumber "10"); ("project", QString "wrong-id");
            ("prefix", QString "a b&c")]
           (QString "wrong-id")).
  - reflexivity.
  - reflexivity.
Defined.

(** The engine of the sample transport holds the interceptors 7 and 3 of
    one call after the next call on the transport, which lists none. *)
Lemma interceptors_outlive_call_witness :
  let a := call Sample.env Sample.transport Sample.interceptedGet None "uuid-1"
             Sample.world in
  let b := call Sample.env Sample.transport Sample.getRetryTest None "uuid-2" (after a) in
  installed (after a) (gaxiosInstance Sample.transport) = [7; 3]
  /\ engines (after b) = engines (after a)
  /\ installed (after b) (gaxiosInstance Sample.transport) = [7; 3].
Proof.
  apply (interceptors_outlive_call Sample.env Sample.transport Sample.transport
           Sample.interceptedGet Sample.getRetryTest None None "uuid-1" "uuid-2"
           Sample.world [7; 3; 7]).
  - reflexivity.
  - vm_compute. reflexivity.
  - reflexivity.
Defined.

(** Two transports of the conformance tests: after a call on the first
    with the interceptors 7 and 3, the engine of the first holds them and
    the engine of the second holds none. *)
Lemma constructed_transports_are_separate_witness :
  let c1 := constructor Sample.env (Sample.options None) Sample.world0 in
  let c2 := constructor Sample.env (Sample.options None) c1.2 in
  let a := call Sample.env c1.1 Sample.interceptedGet None "uuid-1" c2.2 in
  gaxiosInstance c1.1 <> gaxiosInstance c2.1
  /\ engines Sample.world0 !! gaxiosInstance c1.1 = None
  /\ engines Sample.world0 !! gaxiosInstance c2.1 = None
  /\ installed c2.2 (gaxiosInstance c1.1) = []
  /\ installed c2.2 (gaxiosInstance c2.1) = []
  /\ installed (after a) (gaxiosInstance c1.1) = [7; 3]
  /\ installed (after a) (gaxiosInstance c2.1) = [].
Proof.
  apply (constructed_transports_are_separate Sample.env (Sample.options None)
           (Sample.options None) Sample.world0 Sample.interceptedGet None "uuid-1"
           [7; 3; 7]).
  - reflexivity.
  - reflexivity.
  - reflexivity.
  - vm_compute. reflexivity.
Defined.

(** The events of the sample listing with a callback: the lookup, the
    request, one invocation. *)
Lemma call_event_order_witness :
  let r := call Sample.env Sample.transport Sample.listBuckets (Some Sample.quiet) "uuid"
             Sample.world in
  let evs := events_since Sample.world r.2 in
  (evs = [EvGetProjectId]
         ++ map (fun ci => EvRequest ci.1 ci.2) (dispatched evs)
         ++ map EvCallback (callbacks evs)
   /\ length (dispatched evs) <= 1
   /\ length (callbacks evs) <= 2
   /\ (Some Sample.quiet = None -> callbacks evs = []))
  /\ length (dispatched evs) = 1
  /\ length (callbacks evs) = 1.
Proof.
  split; [|vm_compute; split; reflexivity].
  apply (call_event_order Sample.env Sample.transport Sample.listBuckets
           (Some Sample.quiet) "uuid" Sample.world).
Defined.

(** The harness asks for the retry test [abc] and creates one for
    [storage.buckets.get]: each dispatches one request. *)
Lemma getTestBenchRetryTest_request_witness :
  let r := Conformance.getTestBenchRetryTest Sample.env "abc" Sample.transport "uuid"
             Sample.world in
  let evs := events_since Sample.world r.2 in
  (callbacks evs = []
   /\ (if Fetch.valid_value (Fetch.normalize "abc") then True
       else evs = [] /\ exists e, r.1 = Throw e)
   /\ Forall
        (fun ci =>
           Req.method ci.1 = Some "GET"
           /\ Req.retry ci.1 = Some true
           /\ Req.body ci.1 = None
           /\ (exists u, Req.url ci.1 = Some (Url.UObject u) /\ Url.url_query u = None)
           /\ (exists h, Req.headers ci.1 = Some (Fetch.HObject h)
                         /\ Fetch.hget "x-retry-test-id" h = Some (Fetch.normalize "abc"))
           /\ r.1 = match request (authClient Sample.transport) ci.1 with
                    | Ok resp => Ok (Some (resp_data resp))
                    | Throw e => Throw e
                    end)
        (dispatched evs))
  /\ length (dispatched evs) = 1
  /\ r.1 = Ok (Some "{kind: storage#bucket}").
Proof.
  intros r evs. split; [|vm_compute; split; reflexivity].
  exact (getTestBenchRetryTest_request Sample.env "abc" Sample.transport "uuid"
           Sample.world).
Defined.

Lemma createTestBenchRetryTest_request_witness :
  let r := Conformance.createTestBenchRetryTest Sample.env ["return-503"]
             "storage.buckets.get" Sample.transport "uuid" Sample.world in
  let evs := events_since Sample.world r.2 in
  (callbacks evs = []
   /\ Forall
        (fun ci =>
           Req.method ci.1 = Some "POST"
           /\ Req.retry ci.1 = None
           /\ Req.body ci.1
              = Some (JSON.stringify_requestBody "storage.buckets.get" ["return-503"])
           /\ (exists u, Req.url ci.1 = Some (Url.UObject u) /\ Url.url_query u = None)
           /\ (exists h, Req.headers ci.1 = Some (Fetch.HObject h)
                         /\ Fetch.hget "Content-Type" h = Some "application/json")
           /\ r.1 = match request (authClient Sample.transport) ci.1 with
                    | Ok resp => Ok (Some (resp_data resp))
                    | Throw e => Throw e
                    end)
        (dispatched evs))
  /\ length (dispatched evs) = 1.
Proof.
  intros r evs. split; [|vm_compute; reflexivity].
  exact (createTestBenchRetryTest_request Sample.env ["return-503"] "storage.buckets.get"
           Sample.transport "uuid" Sample.world).
Defined.
